(** * ctfd-whale: the admin image picker (assets/image-management.js)

    A shallow embedding of the browser script that fills the image
    dropdown of the challenge form, asks the server to refresh its image
    cache and copies a chosen image into the [docker_image] field.

    The script is a handful of event handlers over four page elements and
    two JSON endpoints.  The embedding keeps its shape:

    - the page is a record of the four elements the script looks up by
      identifier, each of which may be missing.  No statement of the
      script creates or removes one of them, so an element held in a
      closure and a fresh [getElementById] are taken to be the same
      element, and elements are addressed by their identifier.  The
      one way around this is markup inside a server message, which
      the script splices into the select unescaped: what the browser
      builds from such markup has no reading here;
    - every effect that leaves the page (console, alerts, requests) is
      appended to a log, oldest first;
    - a promise chain [makeApiCall(..).then(..).catch(..).finally(..)]
      is a continuation parked in the world until the network settles
      it with an [Outcome]; other handlers may run in between;
    - the surroundings the script probes with [typeof] and truthiness
      tests (the [CTFd] global, [alert], the query string) are a [Host]
      every function takes. *)

From Stdlib Require Import String Ascii List Bool Arith.
Import ListNotations.
Local Open Scope list_scope.
Local Open Scope string_scope.

(** ** JavaScript values the script handles *)

(** The double quote character, to spell the attribute [value=""] of
    the option markup. *)
Definition dq : string := String "034"%char EmptyString.

(** A string or [undefined], as a field taken from a JSON object is. *)
Definition JsString := option string.

(** Truthiness of a string-or-undefined: [undefined] and the empty
    string are falsy. *)
Definition truthy (v : JsString) : bool :=
  match v with
  | None => false
  | Some EmptyString => false
  | Some (String _ _) => true
  end.

(** [v || d] at a string-or-undefined [v]. *)
Definition or_default (v : JsString) (d : string) : string :=
  match v with
  | Some (String c s) => String c s
  | _ => d
  end.

(** The text a template literal or [+] gives for a string-or-undefined. *)
Definition js_text (v : JsString) : string :=
  match v with
  | Some s => s
  | None => "undefined"
  end.

(** The object in [data.data]: [images] is an array of names when present. *)
Record ImagesData := { images : option (list string) }.

(** The JSON object both endpoints answer with,
    [{ success, data?: { images? }, message? }]: a boolean flag, an
    optional object with an optional array of names, an optional
    string. *)
Record Response := {
  success : bool;
  data : option ImagesData;
  message : JsString
}.

(** The reason a promise rejects with: an [Error] and its message. *)
Record JsError := { error_name : string; error_message : string }.

(** How the promise returned by [makeApiCall] settles: the request went
    through and the body parsed, or the transport or the JSON parser
    rejected. *)
Inductive Outcome :=
| Resolved (data : Response)
| Rejected (error : JsError).

(** ** The page *)

(** An [<option>] element: its [value] attribute (absent on a fresh
    element) and its text content. *)
Record OptionElement := {
  value_attr : option string;
  textContent : string
}.

(** [option.value]: the attribute when set, the text otherwise (the
    browser strips and collapses white space in that second case,
    which no option the script builds reaches: each gets its
    attribute). *)
Definition option_value (o : OptionElement) : string :=
  match value_attr o with
  | Some v => v
  | None => textContent o
  end.

(** The [<select id="available-images">].  The script writes its
    content as markup ([innerHTML]) and then appends elements; both are
    kept as written. *)
Record Select := {
  select_innerHTML : string;
  select_appended : list OptionElement;
  select_display : string
}.

(** A [<button>]: [disabled] and its label markup. *)
Record Button := {
  disabled : bool;
  button_innerHTML : string
}.

(** The [<input id="docker_image">]. *)
Record Input := { input_value : string }.

(** The four elements of the page the script binds to;
    [document.getElementById] answers [null] for a missing one. *)
Record Dom := {
  available_images : option Select;
  load_images_dropdown : option Button;
  refresh_images_list : option Button;
  docker_image : option Input
}.

(** ** The host around the script *)

(** [CTFd.ui.ezq], [CTFd.ui] and the global [CTFd], each possibly
    missing, as the feature tests of the script probe them. *)
Record Ezq := { ezAlert : bool }.
Record Ui := { ezq : option Ezq }.
Record CTFdGlobal := { ctfd_fetch : bool; ui : option Ui }.

Inductive ReadyState := loading | interactive | complete.

(** What the script reads from its surroundings: the [CTFd] global,
    whether [alert] is a function, the document's ready state and the
    parsed query string of [window.location.search] (the pairs of
    [URLSearchParams], in order). *)
Record Host := {
  CTFd : option CTFdGlobal;
  alert_is_function : bool;
  readyState : ReadyState;
  searchParams : list (string * string)
}.

(** ** Effects *)

(** The options object handed to [fetch]. *)
Record RequestInit := {
  method : option string;
  credentials : option string;
  headers : option (list (string * string))
}.

Inductive FetchFn := CTFd_fetch | window_fetch.

(** An argument printed by a console call. *)
Inductive Arg :=
| AText (s : string)
| AResponse (r : Response)
| AError (e : JsError).

Inductive Effect :=
| console_log (args : list Arg)
| console_warn (args : list Arg)
| console_error (args : list Arg)
| ezAlert_call (title : string) (body : JsString) (button : string)
| alert_call (text : string)
| fetch_call (fn : FetchFn) (url : string) (init : RequestInit)
| preventDefault_call.

(** A promise chain waiting for its request to settle: the one of
    [loadAvailableImages], or the one of [refreshImagesList] with the
    label it saved in [originalText]. *)
Inductive Pending :=
| PLoad
| PRefresh (originalText : string).

(** The targets and handlers of [addEventListener]. *)
Inductive Target := TDocument | TLoadButton | TRefreshButton | TDropdown.
Inductive EventName := click | change | DOMContentLoaded.
Inductive Handler := HLoadClick | HRefreshClick | HDropdownChange | HSetup.

Record Listener := {
  target : Target;
  event : EventName;
  handler : Handler
}.

(** The world a handler runs in. *)
Record World := {
  dom : Dom;
  listeners : list Listener;
  pending : list Pending;
  log : list Effect
}.

(** ** Writes *)

Definition with_dom (f : Dom -> Dom) (w : World) : World :=
  {| dom := f (dom w); listeners := listeners w;
     pending := pending w; log := log w |}.

Definition emit (e : Effect) (w : World) : World :=
  {| dom := dom w; listeners := listeners w;
     pending := pending w; log := (log w ++ [e])%list |}.

Definition await (k : Pending) (w : World) : World :=
  {| dom := dom w; listeners := listeners w;
     pending := (pending w ++ [k])%list; log := log w |}.

Definition addEventListener (t : Target) (e : EventName) (h : Handler)
    (w : World) : World :=
  {| dom := dom w;
     listeners :=
       (listeners w ++ [{| target := t; event := e; handler := h |}])%list;
     pending := pending w; log := log w |}.

Definition on_dropdown (f : Select -> Select) : World -> World :=
  with_dom (fun d =>
    {| available_images := option_map f (available_images d);
       load_images_dropdown := load_images_dropdown d;
       refresh_images_list := refresh_images_list d;
       docker_image := docker_image d |}).

Definition on_loadButton (f : Button -> Button) : World -> World :=
  with_dom (fun d =>
    {| available_images := available_images d;
       load_images_dropdown := option_map f (load_images_dropdown d);
       refresh_images_list := refresh_images_list d;
       docker_image := docker_image d |}).

Definition on_refreshButton (f : Button -> Button) : World -> World :=
  with_dom (fun d =>
    {| available_images := available_images d;
       load_images_dropdown := load_images_dropdown d;
       refresh_images_list := option_map f (refresh_images_list d);
       docker_image := docker_image d |}).

Definition on_dockerImageInput (f : Input -> Input) : World -> World :=
  with_dom (fun d =>
    {| available_images := available_images d;
       load_images_dropdown := load_images_dropdown d;
       refresh_images_list := refresh_images_list d;
       docker_image := option_map f (docker_image d) |}).

(** A statement of the script, and a body of statements in the order
    the source has them.  [run] executes a body; [states] lists the
    worlds it passes through, the one before the first statement
    first and the one after the last statement last. *)
Definition Statement : Type := World -> World.

Definition run (body : list Statement) (w : World) : World :=
  fold_left (fun w s => s w) body w.

Fixpoint states (body : list Statement) (w : World) : list World :=
  match body with
  | [] => [w]
  | s :: rest => w :: states rest (s w)
  end.

(** [el.innerHTML = html] on the select: the markup replaces every
    child, appended ones included.  The markup is kept as the string
    that was assigned; what elements the browser builds from it is
    read off by [select_options], for markup of plain text only.
    Markup inside a server message (the message is spliced in
    unescaped) is left to the browser and has no reading here, neither
    as options nor as further elements of the page. *)
Definition set_select_innerHTML (html : string) (s : Select) : Select :=
  {| select_innerHTML := html; select_appended := [];
     select_display := select_display s |}.

(** [el.style.display = v]. *)
Definition set_select_display (v : string) (s : Select) : Select :=
  {| select_innerHTML := select_innerHTML s;
     select_appended := select_appended s; select_display := v |}.

(** [el.appendChild(option)]. *)
Definition appendChild (o : OptionElement) (s : Select) : Select :=
  {| select_innerHTML := select_innerHTML s;
     select_appended := (select_appended s ++ [o])%list;
     select_display := select_display s |}.

Definition set_disabled (b : bool) (x : Button) : Button :=
  {| disabled := b; button_innerHTML := button_innerHTML x |}.

Definition set_button_innerHTML (html : string) (x : Button) : Button :=
  {| disabled := disabled x; button_innerHTML := html |}.

Definition set_input_value (v : string) (_ : Input) : Input :=
  {| input_value := v |}.

(** [document.createElement("option")] followed by the two assignments
    [option.value = image; option.textContent = image]. *)
Definition createElement_option : OptionElement :=
  {| value_attr := None; textContent := EmptyString |}.

Definition set_option_value (v : string) (o : OptionElement) : OptionElement :=
  {| value_attr := Some v; textContent := textContent o |}.

Definition set_option_textContent (t : string) (o : OptionElement)
    : OptionElement :=
  {| value_attr := value_attr o; textContent := t |}.

(** ** The script *)

(** The texts the script falls back on. *)
Definition no_images_default : string :=
  "No images found with configured prefix".
Definition elements_not_found : string := "Image dropdown elements not found".
Definition refresh_default : string := "Failed to refresh images".

Definition list_url : string := "/api/v1/plugins/ctfd-whale/admin/images/list".
Definition refresh_url : string :=
  "/api/v1/plugins/ctfd-whale/admin/images/refresh".

(** The markup [<option value="">text</option>] the script assigns to
    the dropdown, with [text] spliced in as it is. *)
Definition option_markup (text : string) : string :=
  "<option value=" ++ dq ++ dq ++ ">" ++ text ++ "</option>".

Definition spinner_markup : string :=
  "<i class=" ++ dq ++ "fas fa-spinner fa-spin" ++ dq ++ "></i>".

Definition defaultOptions : RequestInit :=
  {| method := None;
     credentials := Some "same-origin";
     headers := Some [("Accept", "application/json");
                      ("Content-Type", "application/json")] |}.

Definition or_else {A : Type} (later earlier : option A) : option A :=
  match later with
  | Some x => Some x
  | None => earlier
  end.

(** [Object.assign({}, a, b)]: the properties of [b] win. *)
Definition Object_assign (a b : RequestInit) : RequestInit :=
  {| method := or_else (method b) (method a);
     credentials := or_else (credentials b) (credentials a);
     headers := or_else (headers b) (headers a) |}.

Definition GET : RequestInit :=
  {| method := Some "GET"; credentials := None; headers := None |}.
Definition POST : RequestInit :=
  {| method := Some "POST"; credentials := None; headers := None |}.

(** [urlParams.get(name)]: the first value under [name], or [null]. *)
Fixpoint URLSearchParams_get (name : string) (params : list (string * string))
    : JsString :=
  match params with
  | [] => None
  | (k, v) :: rest =>
      if String.eqb k name then Some v else URLSearchParams_get name rest
  end.

Section Script.

Variable host : Host.

(** [typeof CTFd !== "undefined" && CTFd.fetch ? CTFd.fetch : fetch] *)
Definition fetchFn : FetchFn :=
  match CTFd host with
  | Some c => if ctfd_fetch c then CTFd_fetch else window_fetch
  | None => window_fetch
  end.

(** [typeof CTFd !== "undefined" && CTFd.ui && CTFd.ui.ezq &&
    CTFd.ui.ezq.ezAlert] *)
Definition ezAlert_available : bool :=
  match CTFd host with
  | Some c =>
      match ui c with
      | Some u =>
          match ezq u with
          | Some q => ezAlert q
          | None => false
          end
      | None => false
      end
  | None => false
  end.

(** [makeApiCall(url, options)]: the request leaves; what the returned
    promise settles with is the [Outcome] given to [settle] later. *)
Definition makeApiCall (url : string) (options : RequestInit) (w : World)
    : World :=
  let finalOptions := Object_assign defaultOptions options in
  emit (fetch_call fetchFn url finalOptions) w.

(** [showAlert(title, message, type)] *)
Definition showAlert (title : string) (message : JsString) (type : string)
    (w : World) : World :=
  let w := emit (console_log [AText (title ++ ": " ++ js_text message)]) w in
  if ezAlert_available then
    emit (ezAlert_call title message "OK") w
  else if alert_is_function host then
    emit (alert_call (title ++ ": " ++ js_text message)) w
  else
    emit (console_warn [AText "No alert method available"]) w.

(** *** loadAvailableImages *)

(** The body of [images.forEach]: one fresh option per image. *)
Definition append_image (w : World) (image : string) : World :=
  let option := createElement_option in
  let option := set_option_value image option in
  let option := set_option_textContent image option in
  on_dropdown (appendChild option) w.

(** [data.success && data.data && data.data.images &&
    data.data.images.length > 0] *)
Definition has_images (r : Response) : bool :=
  success r &&
  match data r with
  | Some d =>
      match images d with
      | Some l => (0 <? List.length l)%nat
      | None => false
      end
  | None => false
  end.

(** [data.data.images] on the branch where [has_images] held. *)
Definition images_of (r : Response) : list string :=
  match data r with
  | Some d =>
      match images d with
      | Some l => l
      | None => []
      end
  | None => []
  end.

Definition loadAvailableImages_then (r : Response) (w : World) : World :=
  let w := emit (console_log [AText "Images API response:"; AResponse r]) w in
  if has_images r then
    let w :=
      on_dropdown (set_select_innerHTML (option_markup "Select an image...")) w
    in
    fold_left append_image (images_of r) w
  else
    let message := or_default (message r) no_images_default in
    let w := on_dropdown (set_select_innerHTML (option_markup message)) w in
    if negb (success r) then showAlert "Error" (Some message) "error" w
    else w.

Definition loadAvailableImages_catch (error : JsError) (w : World) : World :=
  let w := emit (console_error [AText "Error loading images:"; AError error]) w
  in
  let w :=
    on_dropdown (set_select_innerHTML (option_markup "Error loading images")) w
  in
  showAlert "Error" (Some ("Failed to load images: " ++ error_message error))
    "error" w.

Definition loadAvailableImages_finally (w : World) : World :=
  on_loadButton (set_disabled false) w.

(** Lines 57 to 64, after the guard: the statements in source order. *)
Definition loadAvailableImages_body : list Statement :=
  [on_dropdown
     (set_select_innerHTML (option_markup "Loading available images..."));
   on_dropdown (set_select_display "block");
   on_loadButton (set_disabled true);
   makeApiCall list_url GET;
   await PLoad].

Definition loadAvailableImages (w : World) : World :=
  match available_images (dom w), load_images_dropdown (dom w) with
  | Some _, Some _ => run loadAvailableImages_body w
  | _, _ =>
      emit (console_error [AText elements_not_found]) w
  end.

(** *** refreshImagesList *)

Definition refreshImagesList_then (r : Response) (w : World) : World :=
  let w := emit (console_log [AText "Refresh API response:"; AResponse r]) w in
  if success r then
    let w := loadAvailableImages w in
    showAlert "Success" (message r) "success" w
  else
    let errorMsg := or_default (message r) refresh_default in
    showAlert "Error" (Some errorMsg) "error" w.

Definition refreshImagesList_catch (error : JsError) (w : World) : World :=
  let w :=
    emit (console_error [AText "Error refreshing images:"; AError error]) w in
  showAlert "Error"
    (Some ("Failed to refresh images: " ++ error_message error)) "error" w.

Definition refreshImagesList_finally (originalText : string) (w : World)
    : World :=
  let w := on_refreshButton (set_disabled false) w in
  on_refreshButton (set_button_innerHTML originalText) w.

(** Lines 115 to 120, after [originalText] is read: the statements in
    source order. *)
Definition refreshImagesList_body (originalText : string) : list Statement :=
  [on_refreshButton (set_disabled true);
   on_refreshButton (set_button_innerHTML spinner_markup);
   makeApiCall refresh_url POST;
   await (PRefresh originalText)].

Definition refreshImagesList (w : World) : World :=
  match refresh_images_list (dom w) with
  | None => emit (console_error [AText "Refresh button not found"]) w
  | Some refreshButton =>
      let originalText := button_innerHTML refreshButton in
      run (refreshImagesList_body originalText) w
  end.

(** *** Settling a promise chain

    [.then(f).catch(g).finally(h)]: [f] on a resolved promise, [g] on a
    rejected one, and [h] after either has run. *)
Definition promise_chain (k : Pending) (o : Outcome) : list Statement :=
  match k with
  | PLoad =>
      [match o with
       | Resolved r => loadAvailableImages_then r
       | Rejected e => loadAvailableImages_catch e
       end;
       loadAvailableImages_finally]
  | PRefresh originalText =>
      [match o with
       | Resolved r => refreshImagesList_then r
       | Rejected e => refreshImagesList_catch e
       end;
       refreshImagesList_finally originalText]
  end.

Definition settle (k : Pending) (o : Outcome) (w : World) : World :=
  run (promise_chain k o) w.

(** *** setupImageDropdown and its handlers *)

Definition load_click (w : World) : World :=
  let w := emit preventDefault_call w in
  let w := emit (console_log [AText "Load images clicked"]) w in
  loadAvailableImages w.

Definition refresh_click (w : World) : World :=
  let w := emit preventDefault_call w in
  let w := emit (console_log [AText "Refresh images clicked"]) w in
  refreshImagesList w.

(** The change handler; [selectedImage] is [dropdown.value] as the
    event fires. *)
Definition dropdown_change (selectedImage : string) (w : World) : World :=
  let w := emit (console_log [AText "Image selected:"; AText selectedImage]) w
  in
  if truthy (Some selectedImage) then
    match docker_image (dom w) with
    | Some _ =>
        let w := on_dockerImageInput (set_input_value selectedImage) w in
        on_dropdown (set_select_display "none") w
    | None => w
    end
  else w.

Definition setupImageDropdown (w : World) : World :=
  let w := emit (console_log [AText "Setting up image dropdown functionality"]) w
  in
  let w :=
    match load_images_dropdown (dom w) with
    | Some _ => addEventListener TLoadButton click HLoadClick w
    | None => emit (console_warn [AText "Load images button not found"]) w
    end in
  let w :=
    match refresh_images_list (dom w) with
    | Some _ => addEventListener TRefreshButton click HRefreshClick w
    | None => emit (console_warn [AText "Refresh images button not found"]) w
    end in
  let w :=
    match available_images (dom w) with
    | Some _ => addEventListener TDropdown change HDropdownChange w
    | None =>
        emit (console_warn [AText "Available images dropdown not found"]) w
    end in
  let preselectedImage := URLSearchParams_get "image" (searchParams host) in
  if truthy preselectedImage then
    match docker_image (dom w) with
    | Some _ =>
        let w :=
          on_dockerImageInput (set_input_value (js_text preselectedImage)) w in
        emit (console_log [AText "Pre-selected image from URL:";
                           AText (js_text preselectedImage)]) w
    | None => w
    end
  else w.

Definition init (w : World) : World :=
  let w := emit (console_log [AText "Initializing Whale Image Manager"]) w in
  match readyState host with
  | loading => addEventListener TDocument DOMContentLoaded HSetup w
  | _ => setupImageDropdown w
  end.

(** *** The event loop *)

Definition run_handler (h : Handler) (value : string) (w : World) : World :=
  match h with
  | HLoadClick => load_click w
  | HRefreshClick => refresh_click w
  | HDropdownChange => dropdown_change value w
  | HSetup => setupImageDropdown w
  end.

Definition Target_eqb (a b : Target) : bool :=
  match a, b with
  | TDocument, TDocument | TLoadButton, TLoadButton
  | TRefreshButton, TRefreshButton | TDropdown, TDropdown => true
  | _, _ => false
  end.

Definition EventName_eqb (a b : EventName) : bool :=
  match a, b with
  | click, click | change, change
  | DOMContentLoaded, DOMContentLoaded => true
  | _, _ => false
  end.

(** An event at [t] runs every listener registered for it, in the
    order of registration; [value] is the target's [value] then. *)
Definition dispatchEvent (t : Target) (e : EventName) (value : string)
    (w : World) : World :=
  fold_left
    (fun w l =>
       if Target_eqb (target l) t && EventName_eqb (event l) e
       then run_handler (handler l) value w
       else w)
    (listeners w) w.

Definition set_pending (p : list Pending) (w : World) : World :=
  {| dom := dom w; listeners := listeners w; pending := p; log := log w |}.

(** What can happen after the script has loaded: a click on an enabled
    button, a selection in the dropdown, the document becoming ready,
    or the network settling one of the parked promise chains. *)
Inductive step : World -> World -> Prop :=
| step_click_load w b :
    load_images_dropdown (dom w) = Some b -> disabled b = false ->
    step w (dispatchEvent TLoadButton click EmptyString w)
| step_click_refresh w b :
    refresh_images_list (dom w) = Some b -> disabled b = false ->
    step w (dispatchEvent TRefreshButton click EmptyString w)
| step_change w s v :
    available_images (dom w) = Some s ->
    step w (dispatchEvent TDropdown change v w)
| step_ready w :
    step w (dispatchEvent TDocument DOMContentLoaded EmptyString w)
| step_settle w before k after o :
    pending w = (before ++ k :: after)%list ->
    step w (settle k o (set_pending (before ++ after)%list w)).

Inductive steps : World -> World -> Prop :=
| steps_refl w : steps w w
| steps_step w1 w2 w3 : steps w1 w2 -> step w2 w3 -> steps w1 w3.

End Script.

(** ** What the dropdown shows

    The script hands the browser markup of one shape only,
    [<option value="">text</option>].  When [text] holds nothing the
    HTML tokenizer treats specially, that markup is one option with an
    empty value and [text] as its content.  Any other markup is left to
    the browser's parser and has no reading here. *)

(** ['<'] opens a tag, ['&'] a character reference, NUL is dropped and
    a carriage return is rewritten; every other character is text. *)
Definition plain_char (c : ascii) : bool :=
  negb (Ascii.eqb c "<") && negb (Ascii.eqb c "&") &&
  negb (Ascii.eqb c "000") && negb (Ascii.eqb c "013").

Fixpoint plain_text (s : string) : bool :=
  match s with
  | EmptyString => true
  | String c s' => plain_char c && plain_text s'
  end.

Fixpoint strip_prefix (p s : string) : option string :=
  match p, s with
  | EmptyString, _ => Some s
  | String a p', String b s' =>
      if Ascii.eqb a b then strip_prefix p' s' else None
  | String _ _, EmptyString => None
  end.

(** The longest run of text at the front of [s], and what follows it. *)
Fixpoint take_text (s : string) : string * string :=
  match s with
  | EmptyString => (EmptyString, EmptyString)
  | String c s' =>
      if plain_char c then
        let (t, rest) := take_text s' in (String c t, rest)
      else (EmptyString, s)
  end.

Definition parse_option_markup (html : string) : option OptionElement :=
  match strip_prefix ("<option value=" ++ dq ++ dq ++ ">") html with
  | Some body =>
      let (t, rest) := take_text body in
      if String.eqb rest "</option>"
      then Some {| value_attr := Some EmptyString; textContent := t |}
      else None
  | None => None
  end.

(** The options of the select, first to last: the one the markup
    stands for, then the appended ones. *)
Definition select_options (s : Select) : option (list OptionElement) :=
  match parse_option_markup (select_innerHTML s) with
  | Some o => Some (o :: select_appended s)
  | None => None
  end.

(** The placeholder option with a given text. *)
Definition placeholder (text : string) : OptionElement :=
  {| value_attr := Some EmptyString; textContent := text |}.

(** The option [forEach] builds for an image name. *)
Definition image_option (image : string) : OptionElement :=
  {| value_attr := Some image; textContent := image |}.

(** A select whose style says [display: none]. *)
Definition hidden (s : Select) : Prop := select_display s = "none".

(** ** Reading the log *)

Definition is_alert (e : Effect) : bool :=
  match e with
  | ezAlert_call _ _ _ | alert_call _ => true
  | _ => false
  end.

Definition is_fetch (e : Effect) : bool :=
  match e with
  | fetch_call _ _ _ => true
  | _ => false
  end.

(** The alerts a log holds, in order. *)
Definition alerts (l : list Effect) : list Effect := filter is_alert l.

(** The requests a log holds, in order. *)
Definition requests (l : list Effect) : list Effect := filter is_fetch l.

(** Whether the host can show an alert at all: the modal of CTFd or
    the dialog of the browser. *)
Definition alert_available (host : Host) : bool :=
  ezAlert_available host || alert_is_function host.

(** The alert [showAlert(title, message)] puts on screen on a host
    that can show one. *)
Definition alert_shown (host : Host) (title : string) (message : JsString)
    : Effect :=
  if ezAlert_available host then ezAlert_call title message "OK"
  else alert_call (title ++ ": " ++ js_text message).

(** ** Auxiliary notions for the statements *)

(** Appending keeps the markup and the style of a select. *)
Definition append_options (names : list string) (s : Select) : Select :=
  {| select_innerHTML := select_innerHTML s;
     select_appended := (select_appended s ++ map image_option names)%list;
     select_display := select_display s |}.

(** The message of a response taken as the server sent it, with the
    default standing in only when the field is absent: the reading of
    the placeholder text that the next counterexample tests. *)
Definition message_as_sent (r : Response) (default : string) : string :=
  match message r with
  | Some m => m
  | None => default
  end.

(** The one effect by which an invocation of [loadAvailableImages]
    shows in the log: its request, or its diagnostic when an element is
    missing. *)
Definition is_load_invocation (e : Effect) : bool :=
  match e with
  | fetch_call _ u _ => String.eqb u list_url
  | console_error [AText s] => String.eqb s elements_not_found
  | _ => false
  end.

Definition load_ready (w : World) : bool :=
  match available_images (dom w), load_images_dropdown (dom w) with
  | Some _, Some _ => true
  | _, _ => false
  end.

Definition load_button_covered (w : World) : Prop :=
  forall b, load_images_dropdown (dom w) = Some b -> disabled b = true ->
    In PLoad (pending w).

Definition refresh_button_covered (w : World) : Prop :=
  forall b, refresh_images_list (dom w) = Some b -> disabled b = true ->
    exists t, In (PRefresh t) (pending w).

Definition covered (w : World) : Prop :=
  load_button_covered w /\ refresh_button_covered w.

(** ** Notions for the event loop *)

Definition present {A : Type} (o : option A) : bool :=
  match o with
  | Some _ => true
  | None => false
  end.

(** Which of the four elements a page has: the select, the trigger
    button, the refresh button, the input. *)
Definition shape (w : World) : bool * bool * bool * bool :=
  (present (available_images (dom w)),
   present (load_images_dropdown (dom w)),
   present (refresh_images_list (dom w)),
   present (docker_image (dom w))).

Definition json_headers : list (string * string) :=
  [("Accept", "application/json"); ("Content-Type", "application/json")].

(** The two requests as they reach [fetch], options merged. *)
Definition list_request (host : Host) : Effect :=
  fetch_call (fetchFn host) list_url
    {| method := Some "GET"; credentials := Some "same-origin";
       headers := Some json_headers |}.

Definition refresh_request (host : Host) : Effect :=
  fetch_call (fetchFn host) refresh_url
    {| method := Some "POST"; credentials := Some "same-origin";
       headers := Some json_headers |}.

Definition script_request (host : Host) (e : Effect) : Prop :=
  e = list_request host \/ e = refresh_request host.

(** The listeners [setupImageDropdown] and [init] register. *)
Definition load_listener : Listener :=
  {| target := TLoadButton; event := click; handler := HLoadClick |}.
Definition refresh_listener : Listener :=
  {| target := TRefreshButton; event := click; handler := HRefreshClick |}.
Definition dropdown_listener : Listener :=
  {| target := TDropdown; event := change; handler := HDropdownChange |}.
Definition setup_listener : Listener :=
  {| target := TDocument; event := DOMContentLoaded; handler := HSetup |}.

Definition script_listener (l : Listener) : Prop :=
  l = load_listener \/ l = refresh_listener \/
  l = dropdown_listener \/ l = setup_listener.

(** A page on which only the script has registered listeners. *)
Definition wired (w : World) : Prop := Forall script_listener (listeners w).

(** The listeners one run of [setupImageDropdown] adds on a page. *)
Definition wiring (w : World) : list Listener :=
  ((if present (load_images_dropdown (dom w)) then [load_listener] else []) ++
   (if present (refresh_images_list (dom w)) then [refresh_listener] else []) ++
   (if present (available_images (dom w)) then [dropdown_listener] else []))%list.

Definition is_warn (e : Effect) : bool :=
  match e with
  | console_warn _ => true
  | _ => false
  end.

Definition listens (t : Target) (e : EventName) (l : Listener) : bool :=
  Target_eqb (target l) t && EventName_eqb (event l) e.

Definition load_button_disabled (w : World) : Prop :=
  exists b, load_images_dropdown (dom w) = Some b /\ disabled b = true.


(** The one outcome after which the script shows nothing: a list
    response whose [success] flag is true. *)
Definition quiet (k : Pending) (o : Outcome) : bool :=
  match k, o with
  | PLoad, Resolved r => success r
  | _, _ => false
  end.

(** ** Sample pages, hosts and responses *)

(** The example page and host used to run the script on. *)
Definition example_dom : Dom :=
  {| available_images :=
       Some {| select_innerHTML := EmptyString; select_appended := [];
               select_display := "none" |};
     load_images_dropdown :=
       Some {| disabled := false; button_innerHTML := "Load" |};
     refresh_images_list :=
       Some {| disabled := false; button_innerHTML := "Refresh" |};
     docker_image := Some {| input_value := EmptyString |} |}.

Definition example_world : World :=
  {| dom := example_dom; listeners := []; pending := []; log := [] |}.

Definition browser_host : Host :=
  {| CTFd := None; alert_is_function := true; readyState := complete;
     searchParams := [] |}.

Definition ctfd_host : Host :=
  {| CTFd := Some {| ctfd_fetch := true;
                     ui := Some {| ezq := Some {| ezAlert := true |} |} |};
     alert_is_function := true; readyState := complete;
     searchParams := [] |}.

(** A host with neither the CTFd modal nor a callable [alert]: the
    last branch of [showAlert]. *)
Definition silent_host : Host :=
  {| CTFd := None; alert_is_function := false; readyState := complete;
     searchParams := [] |}.

Definition query_host (params : list (string * string)) : Host :=
  {| CTFd := None; alert_is_function := true; readyState := complete;
     searchParams := params |}.

Definition bare_world : World :=
  {| dom := {| available_images := None; load_images_dropdown := None;
               refresh_images_list := None;
               docker_image := Some {| input_value := "nginx:old" |} |};
     listeners := []; pending := []; log := [] |}.

(** A page whose dropdown is showing but which has no [docker_image]
    input. *)
Definition no_input_world : World :=
  {| dom := {| available_images :=
                 Some {| select_innerHTML := option_markup "Select an image...";
                         select_appended := [image_option "ubuntu"];
                         select_display := "block" |};
               load_images_dropdown :=
                 Some {| disabled := false; button_innerHTML := "Load" |};
               refresh_images_list := None;
               docker_image := None |};
     listeners := []; pending := []; log := [] |}.

Definition ubuntu_alpine : Response :=
  {| success := true;
     data := Some {| images := Some ["ubuntu"; "alpine"] |};
     message := None |}.

Definition locked : Response :=
  {| success := false; data := None; message := Some "locked" |}.

(** A short run: the script starts on the example page, the trigger
    button is clicked, the list request resolves. *)
Definition wired_world : World := init browser_host example_world.


Definition clicked_world : World :=
  dispatchEvent browser_host TLoadButton click EmptyString wired_world.

Definition loaded_world : World :=
  settle browser_host PLoad (Resolved ubuntu_alpine)
    (set_pending [] clicked_world).

(** ** Proof automation *)

Ltac open_world w :=
  destruct w as [[di lb rb inp] ls pd lg]; simpl in *.

Ltac host_cases host :=
  unfold showAlert, alert_available, alert_shown;
  destruct (ezAlert_available host), (alert_is_function host); simpl.

Ltac log_tail := simpl; rewrite <- ?app_assoc; simpl; reflexivity.

(** ** Elementary facts *)

Lemma strip_prefix_app (p s : string) : strip_prefix p (p ++ s) = Some s.
Proof.
  induction p as [|a p IH]; simpl.
  - reflexivity.
  - rewrite Ascii.eqb_refl. exact IH.
Qed.

Lemma take_text_plain (t rest : string) :
  plain_text t = true ->
  take_text (t ++ String "<" rest) = (t, String "<" rest).
Proof.
  induction t as [|c t IH]; simpl; intro H.
  - reflexivity.
  - apply andb_prop in H. destruct H as [Hc Ht].
    rewrite Hc, (IH Ht). reflexivity.
Qed.

Lemma parse_option_markup_plain (t : string) :
  plain_text t = true ->
  parse_option_markup (option_markup t) = Some (placeholder t).
Proof.
  intro H. unfold parse_option_markup, option_markup.
  change ("<option value=" ++ dq ++ dq ++ ">" ++ t ++ "</option>")
    with (("<option value=" ++ dq ++ dq ++ ">") ++ t ++ "</option>").
  rewrite strip_prefix_app.
  change "</option>" with (String "<" "/option>") at 1.
  rewrite (take_text_plain t _ H). reflexivity.
Qed.

Lemma or_default_spec (v : JsString) (d : string) :
  or_default v d = if truthy v then js_text v else d.
Proof. destruct v as [[|c s]|]; reflexivity. Qed.

(** Running a chain is the handler followed by [finally]; running a
    body is its statements applied one after the other. *)
Lemma settle_handler_then_finally (host : Host) (k : Pending) (o : Outcome)
    (w : World) :
  settle host k o w =
  match k with
  | PLoad =>
      loadAvailableImages_finally
        (match o with
         | Resolved r => loadAvailableImages_then host r w
         | Rejected e => loadAvailableImages_catch host e w
         end)
  | PRefresh originalText =>
      refreshImagesList_finally originalText
        (match o with
         | Resolved r => refreshImagesList_then host r w
         | Rejected e => refreshImagesList_catch host e w
         end)
  end.
Proof. destruct k, o; reflexivity. Qed.

Lemma last_state_is_run (body : list Statement) :
  forall w d, last (states body w) d = run body w.
Proof.
  induction body as [|s body IH]; intros w d; [reflexivity|].
  cbn [states]. unfold run. cbn [fold_left]. fold (run body (s w)).
  rewrite <- (IH (s w) d).
  destruct (states body (s w)) as [|x xs] eqn:E.
  - destruct body; discriminate E.
  - reflexivity.
Qed.

Lemma forEach_append_image (names : list string) :
  forall w : World,
    fold_left append_image names w = on_dropdown (append_options names) w.
Proof.
  induction names as [|n names IH]; intro w; simpl.
  - destruct w as [[[s|] lb rb inp] ls pd lg]; cbv [on_dropdown with_dom];
      simpl; [destruct s; cbv [append_options]; simpl; rewrite app_nil_r|];
      reflexivity.
  - rewrite IH.
    destruct w as [[[s|] lb rb inp] ls pd lg];
      cbv [on_dropdown with_dom append_image]; simpl; [|reflexivity].
    cbv [append_options appendChild]; simpl.
    rewrite <- app_assoc. reflexivity.
Qed.

Lemma has_images_true (r : Response) (names : list string) :
  success r = true -> data r = Some {| images := Some names |} ->
  names <> [] -> has_images r = true /\ images_of r = names.
Proof.
  intros Hs Hd Hn. unfold has_images, images_of. rewrite Hs, Hd. simpl.
  destruct names; [contradiction|]. split; reflexivity.
Qed.

(** ** The list request *)

(** C1.  When the list request resolves with [success] true and a
    non-empty array of N image names, the dropdown ends as N+1 options:
    the empty-valued placeholder "Select an image..." first, then one
    option per name, value and text both that name, in the order of the
    response; and the trigger button is enabled. *)
Theorem load_success_fills_dropdown
    (host : Host) (r : Response) (names : list string) (w : World)
    (sel : Select) (btn : Button) :
  available_images (dom w) = Some sel ->
  load_images_dropdown (dom w) = Some btn ->
  success r = true ->
  data r = Some {| images := Some names |} ->
  names <> [] ->
  let w' := settle host PLoad (Resolved r) w in
  exists sel' opts btn',
    available_images (dom w') = Some sel' /\
    select_options sel' = Some opts /\
    opts = placeholder "Select an image..." :: map image_option names /\
    List.length opts = S (List.length names) /\
    map option_value opts = EmptyString :: names /\
    map textContent opts = "Select an image..." :: names /\
    load_images_dropdown (dom w') = Some btn' /\
    disabled btn' = false.
Proof.
  intros Hsel Hbtn Hs Hd Hn w'.
  destruct (has_images_true r names Hs Hd Hn) as [Hhas Himgs].
  subst w'. unfold settle, promise_chain, loadAvailableImages_then, run; cbn [fold_left].
  rewrite Hhas, Himgs, forEach_append_image.
  destruct w as [[di lb rb inp] ls pd lg]. simpl in Hsel, Hbtn. subst di lb.
  eexists _, _, _. simpl.
  split; [reflexivity|]. split.
  { unfold select_options. simpl select_innerHTML.
    rewrite parse_option_markup_plain by reflexivity. reflexivity. }
  split; [reflexivity|]. simpl.
  rewrite !length_map, !map_map. simpl. rewrite !map_id.
  repeat split; reflexivity.
Qed.

Lemma load_success_fills_dropdown_witness :
  let w' :=
    settle browser_host PLoad (Resolved ubuntu_alpine)
      (loadAvailableImages browser_host example_world) in
  exists sel' opts btn',
    available_images (dom w') = Some sel' /\
    select_options sel' = Some opts /\
    opts = placeholder "Select an image..."
             :: map image_option ["ubuntu"; "alpine"] /\
    List.length opts = 3 /\
    map option_value opts = [EmptyString; "ubuntu"; "alpine"] /\
    map textContent opts = ["Select an image..."; "ubuntu"; "alpine"] /\
    load_images_dropdown (dom w') = Some btn' /\
    disabled btn' = false.
Proof.
  eapply (load_success_fills_dropdown browser_host ubuntu_alpine
            ["ubuntu"; "alpine"]
            (loadAvailableImages browser_host example_world)).
  - reflexivity.
  - reflexivity.
  - reflexivity.
  - reflexivity.
  - discriminate.
Defined.

(** C2, as stated, fails twice.  A response whose message is the empty
    string gets the default text, not the message sent; and on a host
    with no way to alert, a [success: false] response raises nothing. *)
Lemma load_without_images_counterexample :
  (let r := {| success := true; data := None; message := Some EmptyString |} in
   let w' := settle browser_host PLoad (Resolved r) example_world in
   exists sel',
     available_images (dom w') = Some sel' /\
     select_options sel' = Some [placeholder no_images_default] /\
     select_options sel'
       <> Some [placeholder (message_as_sent r no_images_default)]) /\
  (let r := {| success := false; data := None; message := Some "locked" |} in
   let w' := settle silent_host PLoad (Resolved r) example_world in
   success r = false /\ alerts (log w') = []).
Proof.
  split.
  - eexists. split; [reflexivity|]. split; [reflexivity|]. discriminate.
  - split; reflexivity.
Qed.

(** C2, amended.  When the list request resolves without a non-empty
    image list, the dropdown is written as the markup of one
    placeholder option around the message of the response, or around
    the default when that message is absent or empty; for a message of
    plain text that is a single option holding it.  The alert, with
    that same message, is shown exactly when [success] is false and the
    host has a modal or a callable [alert]; nothing is shown when
    [success] is true. *)
Theorem load_without_images_placeholder
    (host : Host) (r : Response) (w : World) (sel : Select) (btn : Button) :
  available_images (dom w) = Some sel ->
  load_images_dropdown (dom w) = Some btn ->
  has_images r = false ->
  let msg := or_default (message r) no_images_default in
  let w' := settle host PLoad (Resolved r) w in
  exists sel' new,
    log w' = (log w ++ new)%list /\
    available_images (dom w') = Some sel' /\
    select_innerHTML sel' = option_markup msg /\
    select_appended sel' = [] /\
    (plain_text msg = true -> select_options sel' = Some [placeholder msg]) /\
    msg = (if truthy (message r) then js_text (message r)
           else no_images_default) /\
    alerts new =
      (if negb (success r) && alert_available host
       then [alert_shown host "Error" (Some msg)] else []) /\
    (success r = true -> alerts new = []).
Proof.
  intros Hsel Hbtn Hhas msg w'. subst w'.
  unfold settle, promise_chain, loadAvailableImages_then, run; cbn [fold_left]. rewrite Hhas.
  fold msg.
  open_world w. subst di lb.
  destruct (success r); host_cases host;
    (eexists _, _; split; [log_tail|]; simpl;
     repeat split; try reflexivity;
     try (intro Hp; unfold select_options; simpl;
          rewrite parse_option_markup_plain by exact Hp; reflexivity);
     try apply or_default_spec; try discriminate).
Qed.

Lemma load_without_images_placeholder_witness :
  let w := loadAvailableImages ctfd_host example_world in
  let w' := settle ctfd_host PLoad (Resolved locked) w in
  exists sel' new,
    log w' = (log w ++ new)%list /\
    available_images (dom w') = Some sel' /\
    select_innerHTML sel' = option_markup "locked" /\
    select_appended sel' = [] /\
    (plain_text "locked" = true ->
     select_options sel' = Some [placeholder "locked"]) /\
    "locked" = "locked" /\
    alerts new = [ezAlert_call "Error" (Some "locked") "OK"] /\
    (success locked = true -> alerts new = []).
Proof.
  eapply (load_without_images_placeholder ctfd_host locked
            (loadAvailableImages ctfd_host example_world)).
  - reflexivity.
  - reflexivity.
  - reflexivity.
Defined.

(** C3, as stated, fails on a host that has neither the CTFd modal nor
    a callable [alert]: the rejection is logged and the placeholder is
    written, but nothing is shown. *)
Lemma load_failure_counterexample :
  let e := {| error_name := "TypeError"; error_message := "Failed to fetch" |} in
  let w' := settle silent_host PLoad (Rejected e) example_world in
  alerts (log w') = [] /\
  log w' =
    [console_error [AText "Error loading images:"; AError e];
     console_log [AText "Error: Failed to load images: Failed to fetch"];
     console_warn [AText "No alert method available"]].
Proof. split; reflexivity. Qed.

(** C3, amended.  When the list request rejects, the dropdown is left
    with the placeholder "Error loading images" as its only option,
    and, on a host that has the CTFd modal or a callable [alert], one
    alert is shown whose message is "Failed to load images: " followed
    by the message of the error. *)
Theorem load_failure_error_placeholder
    (host : Host) (e : JsError) (w : World) (sel : Select) (btn : Button) :
  available_images (dom w) = Some sel ->
  load_images_dropdown (dom w) = Some btn ->
  let w' := settle host PLoad (Rejected e) w in
  exists sel' new,
    log w' = (log w ++ new)%list /\
    available_images (dom w') = Some sel' /\
    select_options sel' = Some [placeholder "Error loading images"] /\
    alerts new =
      (if alert_available host
       then [alert_shown host "Error"
               (Some ("Failed to load images: " ++ error_message e))]
       else []).
Proof.
  intros Hsel Hbtn w'. subst w'.
  unfold settle, promise_chain, loadAvailableImages_catch, run; cbn [fold_left].
  open_world w. subst di lb.
  host_cases host;
    (eexists _, _; split; [log_tail|]; simpl; repeat split; reflexivity).
Qed.

Lemma load_failure_error_placeholder_witness :
  let e := {| error_name := "SyntaxError";
              error_message := "Unexpected token < in JSON" |} in
  let w := loadAvailableImages browser_host example_world in
  let w' := settle browser_host PLoad (Rejected e) w in
  exists sel' new,
    log w' = (log w ++ new)%list /\
    available_images (dom w') = Some sel' /\
    select_options sel' = Some [placeholder "Error loading images"] /\
    alerts new =
      [alert_call
         "Error: Failed to load images: Unexpected token < in JSON"].
Proof.
  eapply (load_failure_error_placeholder browser_host
            {| error_name := "SyntaxError";
               error_message := "Unexpected token < in JSON" |}
            (loadAvailableImages browser_host example_world)).
  - reflexivity.
  - reflexivity.
Defined.

(** ** The buttons around a request *)

(** What [settle] does to the two buttons, whatever the outcome. *)
Lemma settle_load_button (host : Host) (o : Outcome) (w : World) :
  load_images_dropdown (dom (settle host PLoad o w)) =
  option_map (set_disabled false) (load_images_dropdown (dom w)).
Proof.
  unfold settle, promise_chain, loadAvailableImages_then,
      loadAvailableImages_catch, run; cbn [fold_left].
  destruct o as [r|e].
  - destruct (has_images r); [rewrite forEach_append_image|];
      open_world w; [reflexivity|].
    destruct (success r); host_cases host; reflexivity.
  - open_world w. host_cases host; reflexivity.
Qed.

Lemma loadAvailableImages_refresh_button (host : Host) (w : World) :
  refresh_images_list (dom (loadAvailableImages host w)) =
  refresh_images_list (dom w).
Proof.
  unfold loadAvailableImages, loadAvailableImages_body, run; cbn [fold_left]. open_world w.
  destruct di, lb; reflexivity.
Qed.

Lemma showAlert_dom (host : Host) (title : string) (m : JsString)
    (type : string) (w : World) :
  dom (showAlert host title m type w) = dom w /\
  pending (showAlert host title m type w) = pending w /\
  listeners (showAlert host title m type w) = listeners w.
Proof. host_cases host; repeat split; reflexivity. Qed.

Lemma settle_refresh_button (host : Host) (t : string) (o : Outcome)
    (w : World) :
  refresh_images_list (dom (settle host (PRefresh t) o w)) =
  option_map (fun _ => {| disabled := false; button_innerHTML := t |})
    (refresh_images_list (dom w)).
Proof.
  unfold settle, promise_chain, refreshImagesList_finally,
      refreshImagesList_then, refreshImagesList_catch, run; cbn [fold_left].
  destruct o as [r|e]; [destruct (success r)|]; simpl;
    repeat match goal with
    | |- context [dom (showAlert ?h ?a ?b ?c ?x)] =>
        rewrite (proj1 (showAlert_dom h a b c x))
    end;
    [rewrite loadAvailableImages_refresh_button| |];
    simpl; destruct (refresh_images_list (dom w)); reflexivity.
Qed.








(** ** The refresh request *)

Lemma loadAvailableImages_log (host : Host) (w : World) :
  exists e,
    log (loadAvailableImages host w) = (log w ++ [e])%list /\
    is_load_invocation e = true /\ is_alert e = false /\
    pending (loadAvailableImages host w) =
      (pending w ++ if load_ready w then [PLoad] else [])%list.
Proof.
  unfold loadAvailableImages, loadAvailableImages_body, load_ready,
      run; cbn [fold_left]. open_world w.
  destruct di, lb; eexists; simpl; rewrite ?app_nil_r;
    repeat split; reflexivity.
Qed.

Lemma filter_snoc {A : Type} (f : A -> bool) (l : list A) (x : A) :
  filter f (l ++ [x]) = (filter f l ++ if f x then [x] else [])%list.
Proof. rewrite filter_app. simpl. destruct (f x); reflexivity. Qed.

Lemma showAlert_log (host : Host) (title : string) (m : JsString)
    (type : string) (w : World) :
  exists new,
    log (showAlert host title m type w) = (log w ++ new)%list /\
    alerts new =
      (if alert_available host then [alert_shown host title m] else []) /\
    filter is_load_invocation new = [] /\
    requests new = [].
Proof.
  open_world w. host_cases host;
    (eexists; split; [log_tail|]; repeat split; reflexivity).
Qed.

(** C5, as stated, fails on a host that has neither the CTFd modal nor
    a callable [alert]: no alert is shown, on success or on failure. *)
Lemma refresh_alert_counterexample :
  let ok := {| success := true; data := None; message := Some "refreshed" |} in
  alerts (log (settle silent_host (PRefresh "Refresh") (Resolved ok)
                 (refreshImagesList silent_host example_world))) = [] /\
  alerts (log (settle silent_host (PRefresh "Refresh") (Resolved locked)
                 (refreshImagesList silent_host example_world))) = [].
Proof. split; reflexivity. Qed.

(** C5, amended.  When the refresh request resolves with [success]
    true, [loadAvailableImages] is invoked exactly once and then, on a
    host that has the CTFd modal or a callable [alert], exactly one
    alert titled "Success" is shown with the message of the response.
    When it resolves with [success] false, or rejects,
    [loadAvailableImages] is not invoked and, on such a host, exactly
    one alert titled "Error" is shown, with the message of the response
    or the default, or with the text derived from the error. *)
Theorem refresh_outcomes (host : Host) (t : string) (w : World) :
  (forall r, success r = true ->
     let w' := settle host (PRefresh t) (Resolved r) w in
     exists new,
       log w' = (log w ++ new)%list /\
       List.length (filter is_load_invocation new) = 1 /\
       pending w' = (pending w ++ if load_ready w then [PLoad] else [])%list /\
       alerts new =
         (if alert_available host
          then [alert_shown host "Success" (message r)] else [])) /\
  (forall r, success r = false ->
     let w' := settle host (PRefresh t) (Resolved r) w in
     exists new,
       log w' = (log w ++ new)%list /\
       filter is_load_invocation new = [] /\
       requests new = [] /\
       pending w' = pending w /\
       available_images (dom w') = available_images (dom w) /\
       load_images_dropdown (dom w') = load_images_dropdown (dom w) /\
       alerts new =
         (if alert_available host
          then [alert_shown host "Error"
                  (Some (or_default (message r) refresh_default))]
          else [])) /\
  (forall e,
     let w' := settle host (PRefresh t) (Rejected e) w in
     exists new,
       log w' = (log w ++ new)%list /\
       filter is_load_invocation new = [] /\
       requests new = [] /\
       pending w' = pending w /\
       available_images (dom w') = available_images (dom w) /\
       load_images_dropdown (dom w') = load_images_dropdown (dom w) /\
       alerts new =
         (if alert_available host
          then [alert_shown host "Error"
                  (Some ("Failed to refresh images: " ++ error_message e))]
          else [])).
Proof.
  repeat apply conj.
  - intros r Hs w'. subst w'.
    unfold settle, promise_chain, refreshImagesList_then,
      refreshImagesList_finally, run; cbn [fold_left].
    rewrite Hs.
    set (w1 := emit (console_log [AText "Refresh API response:"; AResponse r]) w).
    destruct (loadAvailableImages_log host w1) as (e & Hlog & He & Ha & Hp).
    destruct (showAlert_log host "Success" (message r) "success"
                (loadAvailableImages host w1)) as (new & Hnew & Hal & Hinv & _).
    destruct (showAlert_dom host "Success" (message r) "success"
                (loadAvailableImages host w1)) as (_ & Hpend & _).
    exists ((console_log [AText "Refresh API response:"; AResponse r] :: e :: nil)
              ++ new)%list.
    simpl log. simpl pending. rewrite Hnew, Hlog, Hpend, Hp.
    repeat split.
    + subst w1. simpl. rewrite <- !app_assoc. reflexivity.
    + rewrite filter_app, Hinv. simpl. rewrite He. reflexivity.
    + unfold alerts in *. rewrite filter_app, Hal. simpl.
      rewrite Ha. reflexivity.
  - intros r Hs w'. subst w'.
    unfold settle, promise_chain, refreshImagesList_then,
      refreshImagesList_finally, run; cbn [fold_left].
    rewrite Hs.
    open_world w. host_cases host;
      (eexists; split; [log_tail|]; repeat split; reflexivity).
  - intros e w'. subst w'.
    unfold settle, promise_chain, refreshImagesList_catch,
      refreshImagesList_finally, run; cbn [fold_left].
    open_world w. host_cases host;
      (eexists; split; [log_tail|]; repeat split; reflexivity).
Qed.

Lemma refresh_outcomes_witness :
  let ok := {| success := true; data := None; message := Some "refreshed" |} in
  let w := refreshImagesList ctfd_host example_world in
  (success ok = true ->
   let w' := settle ctfd_host (PRefresh "Refresh") (Resolved ok) w in
   exists new,
     log w' = (log w ++ new)%list /\
     List.length (filter is_load_invocation new) = 1 /\
     pending w' = (pending w ++ [PLoad])%list /\
     alerts new = [ezAlert_call "Success" (Some "refreshed") "OK"]) /\
  (success locked = false ->
   let w' := settle ctfd_host (PRefresh "Refresh") (Resolved locked) w in
   exists new,
     log w' = (log w ++ new)%list /\
     filter is_load_invocation new = [] /\
     requests new = [] /\
     pending w' = pending w /\
     available_images (dom w') = available_images (dom w) /\
     load_images_dropdown (dom w') = load_images_dropdown (dom w) /\
     alerts new = [ezAlert_call "Error" (Some "locked") "OK"]).
Proof.
  destruct (refresh_outcomes ctfd_host "Refresh"
              (refreshImagesList ctfd_host example_world))
    as (Hok & Hfail & _).
  split.
  - exact (Hok {| success := true; data := None;
                  message := Some "refreshed" |}).
  - exact (Hfail locked).
Defined.

Lemma loadAvailableImages_alerts (host : Host) (w : World) :
  alerts (log (loadAvailableImages host w)) = alerts (log w).
Proof.
  destruct (loadAvailableImages_log host w) as (e & Hlog & _ & Ha & _).
  unfold alerts. rewrite Hlog, filter_snoc, Ha. apply app_nil_r.
Qed.

Lemma showAlert_alerts (host : Host) (title : string) (m : JsString)
    (type : string) (w : World) :
  alerts (log (showAlert host title m type w)) =
  (alerts (log w) ++
   if alert_available host then [alert_shown host title m] else [])%list.
Proof.
  destruct (showAlert_log host title m type w) as (new & Hlog & Hal & _).
  unfold alerts in *. rewrite Hlog, filter_app, Hal. reflexivity.
Qed.

(** C10.  The [then] handler of [refreshImagesList] hands the message
    field of the response to the success alert as it is, so that an
    absent message reaches the alert as [undefined] and no default
    stands in for it, while on failure it hands over the message or,
    when that is absent, the default "Failed to refresh images". *)
Theorem refresh_message_defaulting (host : Host) (r : Response) (w : World) :
  alerts (log (refreshImagesList_then host r w)) =
    (alerts (log w) ++
     if alert_available host
     then [if success r
           then alert_shown host "Success" (message r)
           else alert_shown host "Error"
                  (Some (or_default (message r) refresh_default))]
     else [])%list /\
  (forall d,
      alerts (log (refreshImagesList_then host
                     {| success := true; data := d; message := None |} w)) =
        (alerts (log w) ++
         if alert_available host
         then [alert_shown host "Success" None] else [])%list /\
      alerts (log (refreshImagesList_then host
                     {| success := false; data := d; message := None |} w)) =
        (alerts (log w) ++
         if alert_available host
         then [alert_shown host "Error" (Some "Failed to refresh images")]
         else [])%list) /\
  alert_shown ctfd_host "Success" None = ezAlert_call "Success" None "OK" /\
  alert_shown ctfd_host "Error" (Some "Failed to refresh images") =
    ezAlert_call "Error" (Some "Failed to refresh images") "OK" /\
  alert_shown browser_host "Success" None = alert_call "Success: undefined".
Proof.
  assert (G : forall r0,
    alerts (log (refreshImagesList_then host r0 w)) =
    (alerts (log w) ++
     if alert_available host
     then [if success r0
           then alert_shown host "Success" (message r0)
           else alert_shown host "Error"
                  (Some (or_default (message r0) refresh_default))]
     else [])%list).
  { intro r0. unfold refreshImagesList_then. destruct (success r0).
    - rewrite showAlert_alerts, loadAvailableImages_alerts. simpl.
      unfold alerts. rewrite filter_snoc. simpl. rewrite app_nil_r.
      destruct (alert_available host); reflexivity.
    - rewrite showAlert_alerts. simpl. unfold alerts.
      rewrite filter_snoc. simpl. rewrite app_nil_r.
      destruct (alert_available host); reflexivity. }
  repeat apply conj; try reflexivity.
  - apply G.
  - intro d. split; rewrite G; reflexivity.
Qed.

(** ** Missing elements *)

(** C6.  With the select or the trigger button missing,
    [loadAvailableImages] only writes its diagnostic to the console: no
    request leaves, no alert is shown, no chain is parked and the page
    is as it was.  [refreshImagesList] does the same when its button is
    missing. *)
Theorem missing_elements_abort (host : Host) (w : World) :
  (available_images (dom w) = None \/ load_images_dropdown (dom w) = None ->
   let w' := loadAvailableImages host w in
   log w' = (log w ++ [console_error [AText elements_not_found]])%list /\
   requests (log w') = requests (log w) /\
   alerts (log w') = alerts (log w) /\
   dom w' = dom w /\ pending w' = pending w /\ listeners w' = listeners w) /\
  (refresh_images_list (dom w) = None ->
   let w' := refreshImagesList host w in
   log w' = (log w ++ [console_error [AText "Refresh button not found"]])%list /\
   requests (log w') = requests (log w) /\
   alerts (log w') = alerts (log w) /\
   dom w' = dom w /\ pending w' = pending w /\ listeners w' = listeners w).
Proof.
  split.
  - intros H w'. subst w'. unfold loadAvailableImages, loadAvailableImages_body, run; cbn [fold_left].
    assert (E : match available_images (dom w), load_images_dropdown (dom w)
                with Some _, Some _ => false | _, _ => true end = true).
    { destruct H as [H|H]; rewrite H;
        [|destruct (available_images (dom w))]; reflexivity. }
    destruct (available_images (dom w)), (load_images_dropdown (dom w));
      try discriminate E; simpl; unfold requests, alerts;
      rewrite !filter_snoc; simpl; rewrite !app_nil_r;
      repeat split; reflexivity.
  - intros H w'. subst w'. unfold refreshImagesList, refreshImagesList_body, run; cbn [fold_left]. rewrite H. simpl.
    unfold requests, alerts. rewrite !filter_snoc. simpl. rewrite !app_nil_r.
    repeat split; reflexivity.
Qed.

Lemma missing_elements_abort_witness :
  (let w' := loadAvailableImages browser_host bare_world in
   log w' = [console_error [AText elements_not_found]] /\
   requests (log w') = [] /\ alerts (log w') = [] /\
   dom w' = dom bare_world /\ pending w' = [] /\ listeners w' = []) /\
  (let w' := refreshImagesList browser_host bare_world in
   log w' = [console_error [AText "Refresh button not found"]] /\
   requests (log w') = [] /\ alerts (log w') = [] /\
   dom w' = dom bare_world /\ pending w' = [] /\ listeners w' = []).
Proof.
  destruct (missing_elements_abort browser_host bare_world) as [Hload Hrefresh].
  split.
  - exact (Hload (or_introl eq_refl)).
  - exact (Hrefresh eq_refl).
Defined.

(** ** Choosing an image *)

(** C7, as stated, fails when the page has no [docker_image] input: a
    non-empty selection is then copied nowhere and the dropdown stays
    visible. *)
Lemma dropdown_change_counterexample :
  let w' := dropdown_change "ubuntu" no_input_world in
  "ubuntu" <> EmptyString /\
  exists s,
    available_images (dom w') = Some s /\
    select_display s = "block" /\ ~ hidden s.
Proof.
  split; [discriminate|]. eexists. split; [reflexivity|].
  split; [reflexivity|]. unfold hidden. simpl. discriminate.
Qed.

(** C7, amended.  When the change handler fires with a non-empty value
    and the page has the [docker_image] input, the value is copied into
    that input and the dropdown is hidden; when it fires with the empty
    value of the placeholder, the page is left as it was. *)
Theorem dropdown_change_copies_and_hides
    (v : string) (w : World) (s : Select) :
  available_images (dom w) = Some s ->
  let w' := dropdown_change v w in
  (v <> EmptyString ->
   forall i, docker_image (dom w) = Some i ->
     docker_image (dom w') = Some {| input_value := v |} /\
     available_images (dom w') = Some (set_select_display "none" s) /\
     hidden (set_select_display "none" s)) /\
  (v = EmptyString -> dom w' = dom w).
Proof.
  intros Hs w'. subst w'. unfold dropdown_change. split.
  - intros Hv i Hi. destruct v as [|c v]; [contradiction|].
    open_world w. subst di inp. repeat split; reflexivity.
  - intros Hv. subst v. reflexivity.
Qed.

Lemma dropdown_change_copies_and_hides_witness :
  let w := settle browser_host PLoad (Resolved ubuntu_alpine)
             (loadAvailableImages browser_host example_world) in
  let w' := dropdown_change "alpine" w in
  docker_image (dom w') = Some {| input_value := "alpine" |} /\
  (exists s, available_images (dom w') = Some s /\ hidden s) /\
  dom (dropdown_change EmptyString w) = dom w.
Proof.
  pose (w := settle browser_host PLoad (Resolved ubuntu_alpine)
               (loadAvailableImages browser_host example_world)).
  destruct (dropdown_change_copies_and_hides "alpine" w _ eq_refl)
    as [Hcopy _].
  destruct (dropdown_change_copies_and_hides EmptyString w _ eq_refl)
    as [_ Hkeep].
  destruct (Hcopy ltac:(discriminate) _ eq_refl) as (Hin & Hsel & Hhid).
  split; [exact Hin|]. split; [|exact (Hkeep eq_refl)].
  eexists. split; [exact Hsel | exact Hhid].
Defined.

(** C9.  When the change handler fires with a non-empty value on a page
    without the [docker_image] input, nothing on the page changes: no
    value is written anywhere and the dropdown keeps its visibility.
    The handler only logs the selection. *)
Theorem dropdown_change_without_input (v : string) (w : World) :
  v <> EmptyString ->
  docker_image (dom w) = None ->
  let w' := dropdown_change v w in
  dom w' = dom w /\
  available_images (dom w') = available_images (dom w) /\
  log w' = (log w ++ [console_log [AText "Image selected:"; AText v]])%list /\
  pending w' = pending w /\ listeners w' = listeners w.
Proof.
  intros Hv Hi w'. subst w'. unfold dropdown_change.
  destruct v as [|c v]; [contradiction|].
  simpl. rewrite Hi. repeat split; reflexivity.
Qed.

Lemma dropdown_change_without_input_witness :
  let w' := dropdown_change "ubuntu" no_input_world in
  dom w' = dom no_input_world /\
  available_images (dom w') = available_images (dom no_input_world) /\
  log w' = [console_log [AText "Image selected:"; AText "ubuntu"]] /\
  pending w' = [] /\ listeners w' = [].
Proof.
  apply (dropdown_change_without_input "ubuntu" no_input_world).
  - discriminate.
  - reflexivity.
Defined.

(** ** Start-up *)

(** C8, as stated, fails for a URL such as [?image=]: the parameter is
    there, its value is the empty string, and the input keeps what it
    held instead of taking that value. *)
Lemma setup_empty_image_counterexample :
  let host := query_host [("image", EmptyString)] in
  let w' := setupImageDropdown host bare_world in
  URLSearchParams_get "image" (searchParams host) = Some EmptyString /\
  docker_image (dom w') = Some {| input_value := "nginx:old" |} /\
  docker_image (dom w') <> Some {| input_value := EmptyString |}.
Proof. split; [reflexivity|]. split; [reflexivity|]. discriminate. Qed.

Lemma setupImageDropdown_listeners_dom (w : World) :
  forall host, exists new extra,
    let p := URLSearchParams_get "image" (searchParams host) in
    let w' := setupImageDropdown host w in
    log w' = (log w ++ new)%list /\
    requests new = [] /\ alerts new = [] /\
    pending w' = pending w /\
    listeners w' = (listeners w ++ extra)%list /\
    available_images (dom w') = available_images (dom w) /\
    load_images_dropdown (dom w') = load_images_dropdown (dom w) /\
    refresh_images_list (dom w') = refresh_images_list (dom w) /\
    docker_image (dom w') =
      (if truthy p
       then option_map (set_input_value (js_text p)) (docker_image (dom w))
       else docker_image (dom w)).
Proof.
  intro host. unfold setupImageDropdown.
  destruct (truthy (URLSearchParams_get "image" (searchParams host)));
    open_world w; destruct di, lb, rb, inp; simpl;
    (eexists _, _; split; [log_tail|]; simpl; rewrite <- ?app_assoc;
     repeat split; try reflexivity; rewrite ?app_nil_r; reflexivity).
Qed.

(** C8, amended.  If the query string of the page has a parameter
    named [image] whose value is not empty, and the page has the
    [docker_image] input, [setupImageDropdown] sets the value of that
    input to the value of the parameter, as it is and whatever images
    exist; if the parameter is absent or empty the input is left as it
    was.  No request is issued either way. *)
Theorem setup_preselects_image (host : Host) (w : World) :
  let p := URLSearchParams_get "image" (searchParams host) in
  let w' := setupImageDropdown host w in
  (forall v i,
      p = Some v -> v <> EmptyString -> docker_image (dom w) = Some i ->
      docker_image (dom w') = Some {| input_value := v |}) /\
  (p = None \/ p = Some EmptyString ->
   docker_image (dom w') = docker_image (dom w)) /\
  requests (log w') = requests (log w) /\
  pending w' = pending w.
Proof.
  intros p w'.
  destruct (setupImageDropdown_listeners_dom w host)
    as (new & extra & Hlog & Hreq & _ & Hpend & _ & _ & _ & _ & Hin).
  fold p in Hin. fold w' in Hlog, Hpend, Hin.
  repeat apply conj.
  - intros v i Hp Hv Hi. rewrite Hin, Hp, Hi.
    destruct v as [|c v]; [contradiction|]. reflexivity.
  - intros [Hp|Hp]; rewrite Hin, Hp; reflexivity.
  - rewrite Hlog. unfold requests in *. rewrite filter_app, Hreq.
    apply app_nil_r.
  - exact Hpend.
Qed.

Lemma setup_preselects_image_witness :
  let host := query_host [("image", "alpine:latest")] in
  docker_image (dom (setupImageDropdown host bare_world)) =
    Some {| input_value := "alpine:latest" |} /\
  docker_image (dom (setupImageDropdown browser_host bare_world)) =
    docker_image (dom bare_world) /\
  requests (log (setupImageDropdown host bare_world)) = [].
Proof.
  destruct (setup_preselects_image (query_host [("image", "alpine:latest")])
              bare_world) as (Hset & _ & Hreq & _).
  destruct (setup_preselects_image browser_host bare_world)
    as (_ & Hkeep & _).
  split; [|split].
  - exact (Hset "alpine:latest" _ eq_refl ltac:(discriminate) eq_refl).
  - exact (Hkeep (or_introl eq_refl)).
  - exact Hreq.
Defined.

(** ** No button stays disabled

    Over any run of the event loop, overlapping requests included, a
    disabled button always has a chain parked that re-enables it. *)

Lemma covered_frame (w w' : World) :
  load_images_dropdown (dom w') = load_images_dropdown (dom w) ->
  refresh_images_list (dom w') = refresh_images_list (dom w) ->
  incl (pending w) (pending w') ->
  covered w -> covered w'.
Proof.
  intros Hl Hr Hp [Cl Cr]. split.
  - intros b Hb Hd. rewrite Hl in Hb. apply Hp. exact (Cl b Hb Hd).
  - intros b Hb Hd. rewrite Hr in Hb.
    destruct (Cr b Hb Hd) as [t Ht]. exists t. apply Hp. exact Ht.
Qed.

Lemma covered_showAlert (host : Host) (title : string) (m : JsString)
    (type : string) (w : World) :
  covered w -> covered (showAlert host title m type w).
Proof.
  destruct (showAlert_dom host title m type w) as (Hd & Hp & _).
  apply covered_frame; rewrite ?Hd, ?Hp; try reflexivity. apply incl_refl.
Qed.

Lemma covered_loadAvailableImages (host : Host) (w : World) :
  covered w -> covered (loadAvailableImages host w).
Proof.
  intros [Cl Cr]. unfold loadAvailableImages, loadAvailableImages_body, run; cbn [fold_left].
  destruct (available_images (dom w)) as [s|] eqn:Hs;
    [destruct (load_images_dropdown (dom w)) as [b|] eqn:Hb|];
    try (apply (covered_frame w); [reflexivity..|apply incl_refl|split; assumption]).
  split.
  - intros b' _ _. simpl. apply in_or_app. right. left. reflexivity.
  - intros b' Hb' Hd. simpl in Hb'.
    destruct (Cr b' Hb' Hd) as [t Ht]. exists t. simpl.
    apply in_or_app. left. exact Ht.
Qed.

Lemma covered_refreshImagesList (host : Host) (w : World) :
  covered w -> covered (refreshImagesList host w).
Proof.
  intros [Cl Cr]. unfold refreshImagesList, refreshImagesList_body, run; cbn [fold_left].
  destruct (refresh_images_list (dom w)) as [b|] eqn:Hb;
    [|apply (covered_frame w); [reflexivity..|apply incl_refl|split; assumption]].
  split.
  - intros b' Hb' Hd. simpl in Hb'. simpl. apply in_or_app. left.
    exact (Cl b' Hb' Hd).
  - intros b' _ _. exists (button_innerHTML b). simpl.
    apply in_or_app. right. left. reflexivity.
Qed.

Lemma covered_dropdown_change (v : string) (w : World) :
  covered w -> covered (dropdown_change v w).
Proof.
  apply covered_frame; unfold dropdown_change; simpl;
    destruct v, (docker_image (dom w)); try reflexivity; apply incl_refl.
Qed.

Lemma covered_setupImageDropdown (host : Host) (w : World) :
  covered w -> covered (setupImageDropdown host w).
Proof.
  destruct (setupImageDropdown_listeners_dom w host)
    as (new & extra & _ & _ & _ & Hp & _ & _ & Hl & Hr & _).
  apply covered_frame; [exact Hl|exact Hr|]. rewrite Hp. apply incl_refl.
Qed.

Lemma covered_run_handler (host : Host) (h : Handler) (v : string)
    (w : World) :
  covered w -> covered (run_handler host h v w).
Proof.
  intro C. destruct h; simpl.
  - apply covered_loadAvailableImages.
    apply (covered_frame w); [reflexivity..|apply incl_refl|exact C].
  - apply covered_refreshImagesList.
    apply (covered_frame w); [reflexivity..|apply incl_refl|exact C].
  - apply covered_dropdown_change. exact C.
  - apply covered_setupImageDropdown. exact C.
Qed.

Lemma covered_dispatchEvent (host : Host) (t : Target) (e : EventName)
    (v : string) (w : World) :
  covered w -> covered (dispatchEvent host t e v w).
Proof.
  unfold dispatchEvent. generalize (listeners w) as ls.
  intro ls. revert w. induction ls as [|l ls IH]; intros w C; simpl.
  - exact C.
  - apply IH.
    destruct (Target_eqb (target l) t && EventName_eqb (event l) e);
      [apply covered_run_handler|]; exact C.
Qed.

Lemma settle_load_frame (host : Host) (o : Outcome) (w : World) :
  refresh_images_list (dom (settle host PLoad o w)) =
    refresh_images_list (dom w) /\
  pending (settle host PLoad o w) = pending w.
Proof.
  unfold settle, promise_chain, loadAvailableImages_then,
      loadAvailableImages_catch, run; cbn [fold_left].
  destruct o as [r|e].
  - destruct (has_images r); [rewrite forEach_append_image|];
      open_world w; [split; reflexivity|].
    destruct (success r); host_cases host; split; reflexivity.
  - open_world w. host_cases host; split; reflexivity.
Qed.

Lemma in_remove_other (k k' : Pending) (before after : list Pending) :
  k' <> k -> In k' (before ++ k :: after) -> In k' (before ++ after).
Proof.
  intros Hne Hin. apply in_app_or in Hin. apply in_or_app.
  destruct Hin as [Hin|[Hin|Hin]]; [left; exact Hin| |right; exact Hin].
  symmetry in Hin. contradiction.
Qed.

Lemma covered_settle (host : Host) (k : Pending) (o : Outcome)
    (before after : list Pending) (w : World) :
  pending w = (before ++ k :: after)%list ->
  covered w ->
  covered (settle host k o (set_pending (before ++ after)%list w)).
Proof.
  intros Hp [Cl Cr]. destruct k as [|t].
  - split.
    + intros b Hb Hd. rewrite settle_load_button in Hb.
      destruct (load_images_dropdown _); [|discriminate].
      injection Hb as <-. discriminate Hd.
    + intros b Hb Hd.
      destruct (settle_load_frame host o (set_pending (before ++ after)%list w))
        as [Hr Hq].
      rewrite Hr in Hb. rewrite Hq. simpl in Hb. simpl.
      destruct (Cr b Hb Hd) as [t Ht]. exists t. rewrite Hp in Ht.
      apply (in_remove_other PLoad); [discriminate|exact Ht].
  - split.
    + assert (Cl2 : load_button_covered (set_pending (before ++ after)%list w)).
      { intros b Hb Hd. simpl in *. specialize (Cl b Hb Hd).
        rewrite Hp in Cl. apply (in_remove_other (PRefresh t));
          [discriminate|exact Cl]. }
      revert Cl2. generalize (set_pending (before ++ after)%list w) as w2.
      intros w2 Cl2.
      unfold settle, promise_chain, refreshImagesList_finally,
      refreshImagesList_then, refreshImagesList_catch, run; cbn [fold_left].
      assert (Hweak : forall x, load_button_covered x ->
                load_button_covered
                  (on_refreshButton (set_button_innerHTML t)
                     (on_refreshButton (set_disabled false) x))).
      { intros x Cx b Hb Hd. open_world x. exact (Cx b Hb Hd). }
      assert (Halert : forall title m type x, load_button_covered x ->
                load_button_covered (showAlert host title m type x)).
      { intros title m type x Cx b Hb Hd.
        destruct (showAlert_dom host title m type x) as (Hdm & Hpd & _).
        rewrite Hdm in Hb. rewrite Hpd. exact (Cx b Hb Hd). }
      assert (Hemit : forall e x, load_button_covered x ->
                load_button_covered (emit e x)).
      { intros e x Cx b Hb Hd. exact (Cx b Hb Hd). }
      apply Hweak. destruct o as [r|e]; [destruct (success r)|].
      * apply Halert.
        set (x := emit _ w2). assert (Cx : load_button_covered x)
          by (apply Hemit; exact Cl2).
        clearbody x. unfold loadAvailableImages, loadAvailableImages_body, run; cbn [fold_left].
        destruct (available_images (dom x)) as [s|];
          [destruct (load_images_dropdown (dom x)) as [b0|]|];
          try (apply Hemit; exact Cx).
        intros b _ _. simpl. apply in_or_app. right. left. reflexivity.
      * apply Halert, Hemit. exact Cl2.
      * apply Halert, Hemit. exact Cl2.
    + intros b Hb Hd. rewrite settle_refresh_button in Hb.
      destruct (refresh_images_list _); [|discriminate].
      injection Hb as <-. discriminate Hd.
Qed.

Lemma covered_steps (host : Host) (w0 w : World) :
  steps host w0 w -> covered w0 -> covered w.
Proof.
  intros Hsteps C0. induction Hsteps as [w|w1 w2 w3 _ IH Hstep].
  - exact C0.
  - specialize (IH C0). destruct Hstep;
      try (apply covered_dispatchEvent; exact IH).
    eapply covered_settle; eassumption.
Qed.

(** X11.  Every world the event loop reaches from a covered one is covered. *)
Theorem covered_invariant (host : Host) (w0 w : World) :
  steps host w0 w -> covered w0 -> covered w.
Proof.
  intros Hsteps C0. induction Hsteps as [w|w1 w2 w3 _ IH Hstep].
  - exact C0.
  - specialize (IH C0). destruct Hstep.
    + apply covered_dispatchEvent. exact IH.
    + apply covered_dispatchEvent. exact IH.
    + apply covered_dispatchEvent. exact IH.
    + apply covered_dispatchEvent. exact IH.
    + eapply covered_settle; eassumption.
Qed.

(** X12.  From a covered world, a disabled trigger button has a list
    chain parked, and settling that chain is a step of the event loop
    that enables the button, for every outcome of the request. *)
Theorem disabled_load_button_released
    (host : Host) (w0 w : World) (b : Button) :
  steps host w0 w -> covered w0 ->
  load_images_dropdown (dom w) = Some b -> disabled b = true ->
  exists before after,
    pending w = (before ++ PLoad :: after)%list /\
    forall o : Outcome,
      let w' := settle host PLoad o (set_pending (before ++ after)%list w) in
      step host w w' /\
      load_images_dropdown (dom w') = Some (set_disabled false b).
Proof.
  intros Hsteps C0 Hb Hd.
  destruct (covered_steps host w0 w Hsteps C0) as [Cl _].
  destruct (in_split _ _ (Cl b Hb Hd)) as (before & after & Hp).
  exists before, after. split; [exact Hp|].
  intros o w'. subst w'. split.
  - apply step_settle. exact Hp.
  - rewrite settle_load_button. simpl. rewrite Hb. reflexivity.
Qed.

(** ** The two helpers *)

(** X1.  [makeApiCall] sends exactly one request and touches nothing else.
    The options are merged property by property and not deeper: the
    caller's method is added to the defaults, but a caller that gives
    its own headers loses the default [Accept] and [Content-Type]
    altogether. *)
Theorem makeApiCall_merges_shallowly
    (host : Host) (url : string) (options : RequestInit) (w : World) :
  exists init,
    makeApiCall host url options w = emit (fetch_call (fetchFn host) url init) w /\
    method init = method options /\
    credentials init =
      Some (match credentials options with
            | Some c => c
            | None => "same-origin"
            end) /\
    headers init =
      Some (match headers options with
            | Some h => h
            | None => json_headers
            end) /\
    (fetchFn host = CTFd_fetch <->
     exists c, CTFd host = Some c /\ ctfd_fetch c = true).
Proof.
  eexists. split; [reflexivity|]. simpl.
  destruct options as [m c h]; simpl.
  split; [destruct m; reflexivity|].
  split; [destruct c; reflexivity|].
  split; [destruct h; reflexivity|].
  unfold fetchFn. destruct (CTFd host) as [g|].
  - destruct (ctfd_fetch g) eqn:E; split; intro H; try discriminate.
    + exists g. split; [reflexivity|exact E].
    + reflexivity.
    + destruct H as (c' & Hc & Hf). injection Hc as <-.
      rewrite E in Hf. discriminate.
  - split; intro H; [discriminate|].
    destruct H as (c' & Hc & _). discriminate.
Qed.

(** X2.  [showAlert] always writes "title: message" to the console first
    and then does exactly one more thing: the CTFd modal when there is
    one, even if [alert] exists too; otherwise the native dialog;
    otherwise a console warning.  It never shows two dialogs, leaves
    the page alone, and ignores its [type] argument. *)
Theorem showAlert_one_channel
    (host : Host) (title : string) (m : JsString) (type type' : string)
    (w : World) :
  let line := console_log [AText (title ++ ": " ++ js_text m)] in
  let w' := showAlert host title m type w in
  log w' =
    (log w ++
     [line;
      if ezAlert_available host then ezAlert_call title m "OK"
      else if alert_is_function host
           then alert_call (title ++ ": " ++ js_text m)
           else console_warn [AText "No alert method available"]])%list /\
  List.length (alerts (log w')) <= S (List.length (alerts (log w))) /\
  dom w' = dom w /\ pending w' = pending w /\ listeners w' = listeners w /\
  showAlert host title m type' w = w'.
Proof.
  intros line w'. subst line w'. unfold showAlert.
  destruct (ezAlert_available host), (alert_is_function host); simpl;
    rewrite <- ?app_assoc; simpl;
    (split; [reflexivity|]);
    (split; [|repeat split; reflexivity]);
    unfold alerts; rewrite filter_app, length_app; simpl;
    rewrite ?Nat.add_0_r, ?Nat.add_1_r; auto.
Qed.

(** ** Invariants of the event loop *)

Section Preservation.

Variable host : Host.
Variable P : World -> Prop.

Hypothesis P_handler :
  forall h v w, P w -> P (run_handler host h v w).

Hypothesis P_settle :
  forall k o before after w,
    pending w = (before ++ k :: after)%list ->
    P w -> P (settle host k o (set_pending (before ++ after)%list w)).

Lemma dispatchEvent_preserves (t : Target) (e : EventName) (v : string)
    (w : World) :
  P w -> P (dispatchEvent host t e v w).
Proof.
  unfold dispatchEvent. generalize (listeners w) as ls.
  intro ls. revert w. induction ls as [|l ls IH]; intros w Hw; simpl.
  - exact Hw.
  - apply IH.
    destruct (Target_eqb (target l) t && EventName_eqb (event l) e);
      [apply P_handler|]; exact Hw.
Qed.

Lemma steps_preserve (w0 w : World) : steps host w0 w -> P w0 -> P w.
Proof.
  intros Hsteps H0. induction Hsteps as [w|w1 w2 w3 _ IH Hstep].
  - exact H0.
  - specialize (IH H0). destruct Hstep;
      try (apply dispatchEvent_preserves; exact IH).
    eapply P_settle; eassumption.
Qed.

End Preservation.

Ltac crush_world w host :=
  rewrite ?forEach_append_image;
  destruct w as [[[?|] [?|] [?|] [?|]] ? ? ?]; simpl in *;
  host_cases host; reflexivity.

Lemma shape_loadAvailableImages (host : Host) (w : World) :
  shape (loadAvailableImages host w) = shape w.
Proof. unfold loadAvailableImages, loadAvailableImages_body, run; cbn [fold_left]. crush_world w host. Qed.

Lemma shape_refreshImagesList (host : Host) (w : World) :
  shape (refreshImagesList host w) = shape w.
Proof. unfold refreshImagesList, refreshImagesList_body, run; cbn [fold_left]. crush_world w host. Qed.

Lemma shape_setupImageDropdown (host : Host) (w : World) :
  shape (setupImageDropdown host w) = shape w.
Proof.
  unfold setupImageDropdown.
  destruct (truthy (URLSearchParams_get "image" (searchParams host)));
    crush_world w host.
Qed.

Lemma shape_run_handler (host : Host) (h : Handler) (v : string) (w : World) :
  shape (run_handler host h v w) = shape w.
Proof.
  destruct h; simpl.
  - unfold load_click. rewrite shape_loadAvailableImages. reflexivity.
  - unfold refresh_click. rewrite shape_refreshImagesList. reflexivity.
  - unfold dropdown_change. destruct (truthy (Some v)); crush_world w host.
  - apply shape_setupImageDropdown.
Qed.

Lemma shape_settle (host : Host) (k : Pending) (o : Outcome) (w : World) :
  shape (settle host k o w) = shape w.
Proof.
  destruct k as [|t]; unfold settle, promise_chain, run; cbn [fold_left].
  - unfold loadAvailableImages_then, loadAvailableImages_catch.
    destruct o as [r|e]; [destruct (has_images r), (success r)|];
      crush_world w host.
  - unfold refreshImagesList_then, refreshImagesList_catch.
    destruct o as [r|e]; [destruct (success r)|];
      crush_world w host.
Qed.

Ltac crush_log w host :=
  rewrite ?forEach_append_image;
  destruct w as [[[?|] [?|] [?|] [?|]] ? ? ?]; simpl in *;
  host_cases host; unfold requests, alerts;
  rewrite ?filter_app; simpl; rewrite ?app_nil_r, <- ?app_assoc;
  reflexivity.

(** The requests a handler adds to the log. *)
Lemma requests_run_handler (host : Host) (h : Handler) (v : string)
    (w : World) :
  requests (log (run_handler host h v w)) =
  (requests (log w) ++
   match h with
   | HLoadClick => if load_ready w then [list_request host] else []
   | HRefreshClick =>
       if present (refresh_images_list (dom w))
       then [refresh_request host] else []
   | HDropdownChange | HSetup => []
   end)%list.
Proof.
  destruct h; simpl.
  - unfold load_click, loadAvailableImages, loadAvailableImages_body,
      load_ready, run; cbn [fold_left]. crush_log w host.
  - unfold refresh_click, refreshImagesList, refreshImagesList_body,
      run; cbn [fold_left]. crush_log w host.
  - unfold dropdown_change. destruct (truthy (Some v)); crush_log w host.
  - unfold setupImageDropdown.
    destruct (truthy (URLSearchParams_get "image" (searchParams host)));
      crush_log w host.
Qed.

(** The requests settling a chain adds to the log: the reload after a
    successful refresh, and nothing else. *)
Lemma requests_settle (host : Host) (k : Pending) (o : Outcome) (w : World) :
  requests (log (settle host k o w)) =
  (requests (log w) ++
   match k, o with
   | PRefresh _, Resolved r =>
       if success r && load_ready w then [list_request host] else []
   | _, _ => []
   end)%list.
Proof.
  destruct k as [|t]; unfold settle, promise_chain, run; cbn [fold_left].
  - unfold loadAvailableImages_then, loadAvailableImages_catch.
    destruct o as [r|e]; [destruct (has_images r), (success r)|];
      crush_log w host.
  - unfold refreshImagesList_then, refreshImagesList_catch, load_ready.
    destruct o as [r|e]; [destruct (success r)|]; crush_log w host.
Qed.

(** X4.  Over any run of the event loop the script sends nothing but its two
    requests: GET on the list endpoint and POST on the refresh
    endpoint, each with same-origin credentials and the two JSON
    headers. *)
Theorem only_the_two_requests (host : Host) (w0 w : World) :
  steps host w0 w ->
  exists new,
    requests (log w) = (requests (log w0) ++ new)%list /\
    Forall (script_request host) new.
Proof.
  intro Hsteps.
  apply (steps_preserve host
           (fun x => exists new,
                requests (log x) = (requests (log w0) ++ new)%list /\
                Forall (script_request host) new)) with (w0 := w0);
    [| |exact Hsteps|].
  - intros h v x (new & Hx & Hnew). rewrite requests_run_handler, Hx.
    eexists. rewrite <- app_assoc. split; [reflexivity|].
    apply Forall_app. split; [exact Hnew|].
    destruct h; [destruct (load_ready x)|destruct (present _)| |];
      repeat (apply Forall_cons || apply Forall_nil);
      unfold script_request; auto.
  - intros k o before after x _ (new & Hx & Hnew).
    rewrite requests_settle. simpl log. rewrite Hx.
    eexists. rewrite <- app_assoc. split; [reflexivity|].
    apply Forall_app. split; [exact Hnew|].
    destruct k as [|label], o as [r|err]; try apply Forall_nil.
    destruct (success r && load_ready _);
      repeat (apply Forall_cons || apply Forall_nil);
      unfold script_request; auto.
  - exists []. rewrite app_nil_r. split; [reflexivity|constructor].
Qed.

Lemma alerts_run_handler (host : Host) (h : Handler) (v : string) (w : World) :
  alerts (log (run_handler host h v w)) = alerts (log w).
Proof.
  destruct h; simpl.
  - unfold load_click, loadAvailableImages, loadAvailableImages_body,
      run; cbn [fold_left]. crush_log w host.
  - unfold refresh_click, refreshImagesList, refreshImagesList_body,
      run; cbn [fold_left]. crush_log w host.
  - unfold dropdown_change. destruct (truthy (Some v)); crush_log w host.
  - unfold setupImageDropdown.
    destruct (truthy (URLSearchParams_get "image" (searchParams host)));
      crush_log w host.
Qed.

(** X5.  No click, no selection and no page-ready event ever shows an
    alert, however many listeners are registered: alerts come only
    from a request that settles. *)
Theorem events_never_alert
    (host : Host) (t : Target) (e : EventName) (v : string) (w : World) :
  alerts (log (dispatchEvent host t e v w)) = alerts (log w).
Proof.
  apply (dispatchEvent_preserves host
           (fun x => alerts (log x) = alerts (log w))); [|reflexivity].
  intros h v' x Hx. rewrite alerts_run_handler. exact Hx.
Qed.

Lemma load_button_run_handler (host : Host) (h : Handler) (v : string)
    (w : World) :
  load_button_disabled w -> load_button_disabled (run_handler host h v w).
Proof.
  intros (b & Hb & Hd). unfold load_button_disabled.
  destruct h; simpl.
  - unfold load_click, loadAvailableImages, loadAvailableImages_body,
      run; cbn [fold_left].
    destruct w as [[[?|] lb ? ?] ? ? ?]; simpl in *; subst lb; simpl;
      eexists; split; try reflexivity; assumption.
  - unfold refresh_click, refreshImagesList, refreshImagesList_body,
      run; cbn [fold_left].
    destruct w as [[? lb [?|] ?] ? ? ?]; simpl in *; subst lb; simpl;
      eexists; split; try reflexivity; assumption.
  - unfold dropdown_change.
    destruct (truthy (Some v));
      destruct w as [[? lb ? [?|]] ? ? ?]; simpl in *; subst lb; simpl;
      eexists; split; try reflexivity; assumption.
  - destruct (setupImageDropdown_listeners_dom w host)
      as (new & extra & _ & _ & _ & _ & _ & _ & Hl & _).
    exists b. rewrite Hl. split; assumption.
Qed.

(** A disabled trigger button is still disabled after any event and
    after any outcome of a refresh request. *)
Lemma disabled_load_button_kept (host : Host) (w : World) :
  load_button_disabled w ->
  (forall t e v, load_button_disabled (dispatchEvent host t e v w)) /\
  (forall label o, load_button_disabled (settle host (PRefresh label) o w)).
Proof.
  intro H. split.
  - intros t e v.
    apply (dispatchEvent_preserves host load_button_disabled);
      [|exact H].
    intros h v' x. apply load_button_run_handler.
  - intros label o. destruct H as (b & Hb & Hd).
    unfold load_button_disabled, settle, promise_chain,
      refreshImagesList_finally, refreshImagesList_then,
      refreshImagesList_catch, run; cbn [fold_left].
    destruct o as [r|e]; [destruct (success r)|]; simpl;
      rewrite ?(proj1 (showAlert_dom host _ _ _ _)); simpl.
    + unfold loadAvailableImages, loadAvailableImages_body, run; cbn [fold_left].
      destruct w as [[[?|] lb ? ?] ? ? ?]; simpl in *; subst lb; simpl;
        eexists; split; try reflexivity; assumption.
    + exists b. split; assumption.
    + exists b. split; assumption.
Qed.

(** X6.  While the trigger button is disabled, the only step of the
    event loop that can enable it is the settling of a parked list
    chain: after any click, selection or page-ready event, and after
    any outcome of a refresh request, it is still disabled. *)
Theorem only_a_list_chain_enables_the_button (host : Host) (w w' : World) :
  step host w w' ->
  load_button_disabled w ->
  ~ load_button_disabled w' ->
  exists before after o,
    pending w = (before ++ PLoad :: after)%list /\
    w' = settle host PLoad o (set_pending (before ++ after)%list w).
Proof.
  intros Hstep Hd Hn.
  destruct (disabled_load_button_kept host w Hd) as [Hevent _].
  destruct Hstep as [w b ? ?|w b ? ?|w s v ?|w|w before k after o Hp];
    try (exfalso; apply Hn; apply Hevent).
  destruct k as [|label].
  - exists before, after, o. split; [exact Hp|reflexivity].
  - exfalso. apply Hn.
    assert (Hd' : load_button_disabled (set_pending (before ++ after)%list w))
      by exact Hd.
    exact (proj2 (disabled_load_button_kept host _ Hd') label o).
Qed.

Lemma loaded_step : step browser_host clicked_world loaded_world.
Proof.
  apply (step_settle browser_host clicked_world [] PLoad []
           (Resolved ubuntu_alpine)).
  reflexivity.
Defined.

Lemma only_a_list_chain_enables_the_button_witness :
  exists before after o,
    pending clicked_world = (before ++ PLoad :: after)%list /\
    loaded_world =
      settle browser_host PLoad o
        (set_pending (before ++ after)%list clicked_world).
Proof.
  apply (only_a_list_chain_enables_the_button browser_host
           clicked_world loaded_world loaded_step).
  - eexists. split; reflexivity.
  - intros (b & Hb & Hd). simpl in Hb. injection Hb as <-. discriminate Hd.
Defined.

Lemma sample_run : steps browser_host wired_world loaded_world.
Proof.
  eapply steps_step; [eapply steps_step; [apply steps_refl|]|].
  - eapply (step_click_load browser_host wired_world); reflexivity.
  - apply (step_settle browser_host clicked_world [] PLoad []
             (Resolved ubuntu_alpine)).
    reflexivity.
Defined.

Lemma only_the_two_requests_witness :
  exists new,
    requests (log loaded_world) = (requests (log wired_world) ++ new)%list /\
    Forall (script_request browser_host) new.
Proof.
  exact (only_the_two_requests browser_host _ _ sample_run).
Defined.

(** ** What a reload keeps and what it replaces *)

(** X7.  Loading, refreshing and settling either chain never write the
    [docker_image] input: an image the administrator has chosen or
    typed survives every reload, whatever the server answers. *)
Theorem reload_keeps_the_input
    (host : Host) (k : Pending) (o : Outcome) (w : World) :
  docker_image (dom (settle host k o w)) = docker_image (dom w) /\
  docker_image (dom (loadAvailableImages host w)) = docker_image (dom w) /\
  docker_image (dom (refreshImagesList host w)) = docker_image (dom w).
Proof.
  repeat apply conj.
  - destruct k as [|t]; unfold settle, promise_chain, run; cbn [fold_left].
    + unfold loadAvailableImages_then, loadAvailableImages_catch.
      destruct o as [r|e]; [destruct (has_images r), (success r)|];
        crush_world w host.
    + unfold refreshImagesList_then, refreshImagesList_catch.
      destruct o as [r|e]; [destruct (success r)|]; crush_world w host.
  - unfold loadAvailableImages, loadAvailableImages_body, run; cbn [fold_left]. crush_world w host.
  - unfold refreshImagesList, refreshImagesList_body, run; cbn [fold_left]. crush_world w host.
Qed.

Lemma settle_load_dropdown (host : Host) (o : Outcome) :
  exists html opts, forall w,
    available_images (dom (settle host PLoad o w)) =
    option_map
      (fun s => {| select_innerHTML := html; select_appended := opts;
                   select_display := select_display s |})
      (available_images (dom w)).
Proof.
  unfold settle, promise_chain, loadAvailableImages_then,
      loadAvailableImages_catch, run; cbn [fold_left].
  destruct o as [r|e]; [destruct (has_images r) eqn:Hh|].
  - exists (option_markup "Select an image..."),
      (map image_option (images_of r)).
    intro w. rewrite forEach_append_image.
    destruct w as [[[?|] ? ? ?] ? ? ?]; reflexivity.
  - exists (option_markup (or_default (message r) no_images_default)), [].
    intro w. destruct (success r); host_cases host;
      destruct w as [[[?|] ? ? ?] ? ? ?]; reflexivity.
  - exists (option_markup "Error loading images"), [].
    intro w. host_cases host;
      destruct w as [[[?|] ? ? ?] ? ? ?]; reflexivity.
Qed.

(** X8.  Settling the list chain overwrites the dropdown: what it shows
    afterwards depends on the outcome alone, not on what it showed
    before, and whether it is visible is left as it was.  So when two
    overlapping requests settle with the same answer, the options are
    not duplicated. *)
Theorem overlapping_loads_do_not_duplicate
    (host : Host) (o : Outcome) (w w2 : World) (s s2 : Select) :
  available_images (dom w) = Some s ->
  available_images (dom w2) = Some s2 ->
  exists s' s2',
    available_images (dom (settle host PLoad o w)) = Some s' /\
    available_images (dom (settle host PLoad o w2)) = Some s2' /\
    select_innerHTML s2' = select_innerHTML s' /\
    select_appended s2' = select_appended s' /\
    select_display s' = select_display s /\
    available_images (dom (settle host PLoad o (settle host PLoad o w))) =
      Some s'.
Proof.
  intros Hs Hs2. destruct (settle_load_dropdown host o) as (html & opts & H).
  rewrite (H (settle host PLoad o w)), !H, Hs, Hs2. simpl.
  eexists _, _. repeat split; reflexivity.
Qed.

Lemma overlapping_loads_do_not_duplicate_witness :
  let w := loadAvailableImages browser_host
             (loadAvailableImages browser_host example_world) in
  let once := settle browser_host PLoad (Resolved ubuntu_alpine) w in
  let twice := settle browser_host PLoad (Resolved ubuntu_alpine) once in
  exists s',
    available_images (dom once) = Some s' /\
    available_images (dom twice) = Some s' /\
    select_options s' =
      Some (placeholder "Select an image..."
              :: map image_option ["ubuntu"; "alpine"]).
Proof.
  destruct (overlapping_loads_do_not_duplicate browser_host
              (Resolved ubuntu_alpine)
              (loadAvailableImages browser_host
                 (loadAvailableImages browser_host example_world))
              example_world _ _ eq_refl eq_refl)
    as (s' & s2' & H1 & _ & _ & _ & _ & H2).
  exists s'. split; [exact H1|]. split; [exact H2|].
  simpl in H1. injection H1 as <-. reflexivity.
Defined.

(** ** Whole interactions *)

(** X9.  Choosing an image hides the dropdown; the next load shows it
    again, with the fresh list, and the chosen image is still in the
    input. *)
Theorem reload_after_a_choice
    (host : Host) (v : string) (r : Response) (names : list string)
    (w : World) (s : Select) (b : Button) (i : Input) :
  available_images (dom w) = Some s ->
  load_images_dropdown (dom w) = Some b ->
  docker_image (dom w) = Some i ->
  v <> EmptyString ->
  success r = true -> data r = Some {| images := Some names |} ->
  names <> [] ->
  let chosen := dropdown_change v w in
  let reloaded :=
    settle host PLoad (Resolved r) (loadAvailableImages host chosen) in
  (exists s0, available_images (dom chosen) = Some s0 /\ hidden s0) /\
  docker_image (dom reloaded) = Some {| input_value := v |} /\
  exists s',
    available_images (dom reloaded) = Some s' /\
    select_display s' = "block" /\
    select_options s' =
      Some (placeholder "Select an image..." :: map image_option names).
Proof.
  intros Hs Hb Hi Hv Hsucc Hdata Hn chosen reloaded.
  destruct (has_images_true r names Hsucc Hdata Hn) as [Hhas Himgs].
  subst chosen reloaded.
  unfold settle, promise_chain, loadAvailableImages_then, run; cbn [fold_left]. rewrite Hhas, Himgs.
  rewrite forEach_append_image.
  destruct v as [|c v]; [contradiction|].
  open_world w. subst di lb inp.
  split; [eexists; split; reflexivity|].
  split; [reflexivity|].
  eexists. split; [reflexivity|]. split; [reflexivity|].
  unfold select_options. simpl select_innerHTML.
  rewrite parse_option_markup_plain by reflexivity. reflexivity.
Qed.

Lemma reload_after_a_choice_witness :
  let chosen := dropdown_change "alpine" example_world in
  let reloaded :=
    settle browser_host PLoad (Resolved ubuntu_alpine)
      (loadAvailableImages browser_host chosen) in
  (exists s0, available_images (dom chosen) = Some s0 /\ hidden s0) /\
  docker_image (dom reloaded) = Some {| input_value := "alpine" |} /\
  exists s',
    available_images (dom reloaded) = Some s' /\
    select_display s' = "block" /\
    select_options s' =
      Some (placeholder "Select an image..."
              :: map image_option ["ubuntu"; "alpine"]).
Proof.
  eapply (reload_after_a_choice browser_host "alpine" ubuntu_alpine
            ["ubuntu"; "alpine"] example_world);
    try reflexivity; discriminate.
Defined.

(** X10.  A refresh that succeeds, followed by the reload it starts: in the
    end both buttons are enabled, the refresh button has its label
    back, the dropdown is visible with the new list, and exactly two
    requests have left, the POST before the GET. *)
Theorem refresh_then_reload
    (host : Host) (r1 r2 : Response) (names : list string)
    (w : World) (s : Select) (b rbtn : Button) :
  available_images (dom w) = Some s ->
  load_images_dropdown (dom w) = Some b ->
  refresh_images_list (dom w) = Some rbtn ->
  success r1 = true ->
  success r2 = true -> data r2 = Some {| images := Some names |} ->
  names <> [] ->
  let started := refreshImagesList host w in
  let refreshed :=
    settle host (PRefresh (button_innerHTML rbtn)) (Resolved r1) started in
  let reloaded := settle host PLoad (Resolved r2) refreshed in
  pending started = (pending w ++ [PRefresh (button_innerHTML rbtn)])%list /\
  pending refreshed = (pending started ++ [PLoad])%list /\
  refresh_images_list (dom reloaded) =
    Some {| disabled := false; button_innerHTML := button_innerHTML rbtn |} /\
  load_images_dropdown (dom reloaded) =
    Some {| disabled := false; button_innerHTML := button_innerHTML b |} /\
  requests (log reloaded) =
    (requests (log w) ++ [refresh_request host; list_request host])%list /\
  exists s',
    available_images (dom reloaded) = Some s' /\
    select_display s' = "block" /\
    select_options s' =
      Some (placeholder "Select an image..." :: map image_option names).
Proof.
  intros Hs Hb Hrb Hs1 Hs2 Hdata Hn started refreshed reloaded.
  destruct (has_images_true r2 names Hs2 Hdata Hn) as [Hhas Himgs].
  subst started refreshed reloaded.
  unfold settle, promise_chain, loadAvailableImages_then,
      refreshImagesList_then, refreshImagesList,
      refreshImagesList_body, run; cbn [fold_left].
  rewrite Hhas, Himgs, Hs1, Hrb, forEach_append_image.
  open_world w. subst di lb rb.
  host_cases host; unfold requests; rewrite ?filter_app; simpl;
    rewrite ?app_nil_r, <- ?app_assoc;
    (repeat apply conj; try reflexivity;
     eexists; split; [reflexivity|]; split; [reflexivity|];
     unfold select_options; simpl select_innerHTML;
     rewrite parse_option_markup_plain by reflexivity; reflexivity).
Qed.

Lemma refresh_then_reload_witness :
  let ok := {| success := true; data := None; message := Some "refreshed" |} in
  let started := refreshImagesList ctfd_host example_world in
  let refreshed := settle ctfd_host (PRefresh "Refresh") (Resolved ok) started in
  let reloaded := settle ctfd_host PLoad (Resolved ubuntu_alpine) refreshed in
  pending started = [PRefresh "Refresh"] /\
  pending refreshed = [PRefresh "Refresh"; PLoad] /\
  refresh_images_list (dom reloaded) =
    Some {| disabled := false; button_innerHTML := "Refresh" |} /\
  load_images_dropdown (dom reloaded) =
    Some {| disabled := false; button_innerHTML := "Load" |} /\
  requests (log reloaded) = [refresh_request ctfd_host; list_request ctfd_host] /\
  exists s',
    available_images (dom reloaded) = Some s' /\
    select_display s' = "block" /\
    select_options s' =
      Some (placeholder "Select an image..."
              :: map image_option ["ubuntu"; "alpine"]).
Proof.
  apply (refresh_then_reload ctfd_host
           {| success := true; data := None; message := Some "refreshed" |}
           ubuntu_alpine ["ubuntu"; "alpine"] example_world
           {| select_innerHTML := EmptyString; select_appended := [];
              select_display := "none" |}
           {| disabled := false; button_innerHTML := "Load" |}
           {| disabled := false; button_innerHTML := "Refresh" |});
    try reflexivity; discriminate.
Defined.

(** ** Disabled buttons over a run *)

Lemma covered_wired_world : covered wired_world.
Proof.
  split; intros b Hb Hd; simpl in Hb; injection Hb as <-; discriminate Hd.
Defined.

Lemma covered_invariant_witness : covered loaded_world.
Proof.
  exact (covered_invariant browser_host _ _ sample_run covered_wired_world).
Defined.

Lemma clicked_run : steps browser_host wired_world clicked_world.
Proof.
  eapply steps_step; [apply steps_refl|].
  eapply (step_click_load browser_host wired_world); reflexivity.
Defined.

Lemma disabled_load_button_released_witness :
  exists before after,
    pending clicked_world = (before ++ PLoad :: after)%list /\
    forall o : Outcome,
      let w' :=
        settle browser_host PLoad o
          (set_pending (before ++ after)%list clicked_world) in
      step browser_host clicked_world w' /\
      load_images_dropdown (dom w') =
        Some {| disabled := false; button_innerHTML := "Load" |}.
Proof.
  exact (disabled_load_button_released browser_host wired_world
           clicked_world {| disabled := true; button_innerHTML := "Load" |}
           clicked_run covered_wired_world eq_refl eq_refl).
Defined.

(** X13.  From a covered world, a disabled refresh button has a
    refresh chain parked, and settling that chain is a step of the
    event loop that enables the button and writes back the label the
    chain saved, for every outcome of the request. *)
Theorem disabled_refresh_button_released
    (host : Host) (w0 w : World) (b : Button) :
  steps host w0 w -> covered w0 ->
  refresh_images_list (dom w) = Some b -> disabled b = true ->
  exists label before after,
    pending w = (before ++ PRefresh label :: after)%list /\
    forall o : Outcome,
      let w' :=
        settle host (PRefresh label) o
          (set_pending (before ++ after)%list w) in
      step host w w' /\
      refresh_images_list (dom w') =
        Some {| disabled := false; button_innerHTML := label |}.
Proof.
  intros Hsteps C0 Hb Hd.
  destruct (covered_steps host w0 w Hsteps C0) as [_ Cr].
  destruct (Cr b Hb Hd) as [label Hin].
  destruct (in_split _ _ Hin) as (before & after & Hp).
  exists label, before, after. split; [exact Hp|].
  intros o w'. subst w'. split.
  - apply step_settle. exact Hp.
  - rewrite settle_refresh_button. simpl. rewrite Hb. reflexivity.
Qed.

Lemma refresh_clicked_run :
  steps browser_host wired_world
    (dispatchEvent browser_host TRefreshButton click EmptyString wired_world).
Proof.
  eapply steps_step; [apply steps_refl|].
  eapply (step_click_refresh browser_host wired_world); reflexivity.
Defined.

Lemma disabled_refresh_button_released_witness :
  let w := dispatchEvent browser_host TRefreshButton click EmptyString
             wired_world in
  exists label before after,
    pending w = (before ++ PRefresh label :: after)%list /\
    forall o : Outcome,
      let w' :=
        settle browser_host (PRefresh label) o
          (set_pending (before ++ after)%list w) in
      step browser_host w w' /\
      refresh_images_list (dom w') =
        Some {| disabled := false; button_innerHTML := label |}.
Proof.
  exact (disabled_refresh_button_released browser_host wired_world _
           {| disabled := true; button_innerHTML := spinner_markup |}
           refresh_clicked_run covered_wired_world eq_refl eq_refl).
Defined.

(** ** Wiring *)

Lemma setupImageDropdown_listeners (host : Host) (w : World) :
  listeners (setupImageDropdown host w) = (listeners w ++ wiring w)%list.
Proof.
  unfold setupImageDropdown, wiring.
  destruct (truthy (URLSearchParams_get "image" (searchParams host)));
    destruct w as [[[?|] [?|] [?|] [?|]] ? ? ?]; simpl;
    rewrite <- ?app_assoc, ?app_nil_r; reflexivity.
Qed.

(** X14.  [setupImageDropdown] wires each element that is there and warns
    about each that is not, one independently of the other: it adds
    one listener per present element, in the order trigger button,
    refresh button, dropdown, and listeners and warnings together are
    always three. *)
Theorem setup_wires_what_is_there (host : Host) (w : World) :
  let w' := setupImageDropdown host w in
  exists new,
    log w' = (log w ++ new)%list /\
    listeners w' = (listeners w ++ wiring w)%list /\
    List.length (wiring w) + List.length (filter is_warn new) = 3 /\
    Forall script_listener (wiring w).
Proof.
  intro w'. subst w'. unfold setupImageDropdown, wiring.
  destruct (truthy (URLSearchParams_get "image" (searchParams host)));
    destruct w as [[[?|] [?|] [?|] [?|]] ? ? ?]; simpl;
    (eexists; split; [log_tail|]; simpl;
     rewrite <- ?app_assoc, ?app_nil_r;
     repeat split; try reflexivity;
     repeat (apply Forall_cons || apply Forall_nil);
     unfold script_listener; auto).
Qed.

Lemma dispatch_skips (host : Host) (t : Target) (e : EventName) (v : string)
    (ls : list Listener) :
  (forall l, In l ls -> listens t e l = false) ->
  forall w,
    fold_left
      (fun w l =>
         if Target_eqb (target l) t && EventName_eqb (event l) e
         then run_handler host (handler l) v w
         else w) ls w = w.
Proof.
  induction ls as [|l ls IH]; intros H w; simpl.
  - reflexivity.
  - pose proof (H l (or_introl eq_refl)) as Hl. unfold listens in Hl.
    rewrite Hl. apply IH. intros l' Hin. apply H. right. exact Hin.
Qed.

Lemma setupImageDropdown_dom (host : Host) (w : World) :
  dom (setupImageDropdown host w) =
  {| available_images := available_images (dom w);
     load_images_dropdown := load_images_dropdown (dom w);
     refresh_images_list := refresh_images_list (dom w);
     docker_image :=
       let p := URLSearchParams_get "image" (searchParams host) in
       if truthy p
       then option_map (set_input_value (js_text p)) (docker_image (dom w))
       else docker_image (dom w) |}.
Proof.
  unfold setupImageDropdown. simpl.
  destruct (truthy (URLSearchParams_get "image" (searchParams host)));
    destruct w as [[[?|] [?|] [?|] [?|]] ? ? ?]; reflexivity.
Qed.

(** X15.  When the script loads while the document is still loading, [init]
    touches nothing and only parks the setup; the first
    [DOMContentLoaded] then runs [setupImageDropdown] once, and the
    page ends up as if the script had loaded on a ready document. *)
Theorem deferred_setup_equals_immediate
    (host now : Host) (v : string) (w : World) :
  readyState host = loading ->
  readyState now <> loading ->
  searchParams now = searchParams host ->
  (forall l, In l (listeners w) ->
             listens TDocument DOMContentLoaded l = false) ->
  let parked := init host w in
  let ready := dispatchEvent host TDocument DOMContentLoaded v parked in
  dom parked = dom w /\
  listeners parked = (listeners w ++ [setup_listener])%list /\
  ready = setupImageDropdown host parked /\
  dom ready = dom (init now w) /\
  listeners ready = (listeners w ++ setup_listener :: wiring w)%list /\
  listeners (init now w) = (listeners w ++ wiring w)%list.
Proof.
  intros Hload Hnow Hsearch Hnone parked ready. subst ready parked.
  unfold init. rewrite Hload.
  assert (Hinit : match readyState now with
                  | loading =>
                      addEventListener TDocument DOMContentLoaded HSetup
                        (emit (console_log
                                 [AText "Initializing Whale Image Manager"]) w)
                  | _ =>
                      setupImageDropdown now
                        (emit (console_log
                                 [AText "Initializing Whale Image Manager"]) w)
                  end =
                  setupImageDropdown now
                    (emit (console_log
                             [AText "Initializing Whale Image Manager"]) w)).
  { destruct (readyState now); [contradiction|reflexivity|reflexivity]. }
  rewrite Hinit.
  assert (Hready :
    dispatchEvent host TDocument DOMContentLoaded v
      (addEventListener TDocument DOMContentLoaded HSetup
         (emit (console_log [AText "Initializing Whale Image Manager"]) w)) =
    setupImageDropdown host
      (addEventListener TDocument DOMContentLoaded HSetup
         (emit (console_log [AText "Initializing Whale Image Manager"]) w))).
  { unfold dispatchEvent. simpl listeners. rewrite fold_left_app.
    rewrite (dispatch_skips host TDocument DOMContentLoaded v _ Hnone).
    reflexivity. }
  rewrite Hready, !setupImageDropdown_dom, !setupImageDropdown_listeners,
    Hsearch.
  simpl. rewrite <- app_assoc. repeat split; reflexivity.
Qed.

Lemma deferred_setup_equals_immediate_witness :
  let host := {| CTFd := None; alert_is_function := true;
                 readyState := loading;
                 searchParams := [("image", "alpine:latest")] |} in
  let now := query_host [("image", "alpine:latest")] in
  let parked := init host example_world in
  let ready := dispatchEvent host TDocument DOMContentLoaded EmptyString parked in
  dom parked = dom example_world /\
  listeners parked = [setup_listener] /\
  ready = setupImageDropdown host parked /\
  dom ready = dom (init now example_world) /\
  listeners ready =
    [setup_listener; load_listener; refresh_listener; dropdown_listener] /\
  listeners (init now example_world) =
    [load_listener; refresh_listener; dropdown_listener].
Proof.
  apply (deferred_setup_equals_immediate
           {| CTFd := None; alert_is_function := true;
              readyState := loading;
              searchParams := [("image", "alpine:latest")] |}
           (query_host [("image", "alpine:latest")])
           EmptyString example_world).
  - reflexivity.
  - discriminate.
  - reflexivity.
  - intros l [].
Defined.

(** ** One request per registered listener *)

Lemma load_ready_shape (w w' : World) :
  shape w' = shape w -> load_ready w' = load_ready w.
Proof.
  unfold shape, load_ready. intro E. injection E as E1 E2 _ _.
  destruct (available_images (dom w')), (available_images (dom w)),
    (load_images_dropdown (dom w')), (load_images_dropdown (dom w));
    simpl in *; try discriminate; reflexivity.
Qed.

Lemma listens_load_click (l : Listener) :
  script_listener l -> listens TLoadButton click l = true ->
  l = load_listener.
Proof.
  intros [H|[H|[H|H]]] Hl; subst l; try discriminate Hl. reflexivity.
Qed.

Lemma load_click_pending (host : Host) (w : World) :
  load_ready w = true ->
  pending (load_click host w) = (pending w ++ [PLoad])%list.
Proof.
  unfold load_click, loadAvailableImages, loadAvailableImages_body,
      load_ready, run; cbn [fold_left].
  destruct w as [[[?|] [?|] ? ?] ? ? ?]; simpl; intro H;
    try discriminate H; reflexivity.
Qed.

Lemma repeat_snoc {A : Type} (x : A) (n : nat) :
  (x :: repeat x n = repeat x n ++ [x])%list.
Proof.
  induction n as [|n IH]; simpl; [reflexivity|]. rewrite <- IH. reflexivity.
Qed.

Lemma clicks_fold (host : Host) (v : string) (ls : list Listener) :
  Forall script_listener ls ->
  forall w, load_ready w = true ->
    let w' :=
      fold_left
        (fun w l =>
           if Target_eqb (target l) TLoadButton && EventName_eqb (event l) click
           then run_handler host (handler l) v w
           else w) ls w in
    let n := List.length (filter (listens TLoadButton click) ls) in
    requests (log w') = (requests (log w) ++ repeat (list_request host) n)%list /\
    pending w' = (pending w ++ repeat PLoad n)%list /\
    load_ready w' = true.
Proof.
  induction 1 as [|l ls Hl Hls IH]; intros w Hw; simpl.
  - rewrite !app_nil_r. repeat split; [exact Hw].
  - fold (listens TLoadButton click l).
    destruct (listens TLoadButton click l) eqn:E.
    + rewrite (listens_load_click l Hl E). simpl handler.
      assert (Hw1 : load_ready (run_handler host HLoadClick v w) = true).
      { rewrite (load_ready_shape w); [exact Hw|apply shape_run_handler]. }
      destruct (IH _ Hw1) as (Hr & Hp & Hk). cbv zeta in Hr, Hp, Hk.
      rewrite Hr, Hp, requests_run_handler, Hw.
      change (run_handler host HLoadClick v w) with (load_click host w).
      rewrite (load_click_pending host w Hw), <- !app_assoc.
      repeat split; [exact Hk].
    + exact (IH w Hw).
Qed.

(** X16.  A click on the trigger button runs every click listener the script
    has registered on it: with n of them, n list requests leave and n
    chains are parked.  Nothing in the script collapses them into
    one. *)
Theorem one_request_per_click_listener
    (host : Host) (v : string) (w : World) :
  wired w -> load_ready w = true ->
  let n := List.length (filter (listens TLoadButton click) (listeners w)) in
  let w' := dispatchEvent host TLoadButton click v w in
  requests (log w') = (requests (log w) ++ repeat (list_request host) n)%list /\
  pending w' = (pending w ++ repeat PLoad n)%list.
Proof.
  intros Hwired Hready n w'. subst n w'. unfold dispatchEvent.
  destruct (clicks_fold host v (listeners w) Hwired w Hready)
    as (Hr & Hp & _).
  split; assumption.
Qed.

Lemma wired_wired_world : wired wired_world.
Proof.
  repeat (apply Forall_cons || apply Forall_nil); unfold script_listener; auto.
Defined.

Lemma one_request_per_click_listener_witness :
  requests (log clicked_world) =
    (requests (log wired_world) ++ [list_request browser_host])%list /\
  pending clicked_world = (pending wired_world ++ [PLoad])%list.
Proof.
  exact (one_request_per_click_listener browser_host EmptyString wired_world
           wired_wired_world eq_refl).
Defined.

Lemma init_ready (host : Host) (w : World) :
  readyState host <> loading ->
  init host w =
  setupImageDropdown host
    (emit (console_log [AText "Initializing Whale Image Manager"]) w).
Proof.
  unfold init. destruct (readyState host); [contradiction| |]; reflexivity.
Qed.

Lemma wiring_shape (w w' : World) : shape w' = shape w -> wiring w' = wiring w.
Proof.
  unfold shape, wiring. intro E. injection E as E1 E2 E3 _.
  rewrite E1, E2, E3. reflexivity.
Qed.

Lemma init_n_times (host : Host) (n : nat) (w : World) :
  readyState host <> loading -> load_ready w = true -> wired w ->
  let w' := Nat.iter n (init host) w in
  wired w' /\ load_ready w' = true /\
  List.length (filter (listens TLoadButton click) (listeners w')) =
    List.length (filter (listens TLoadButton click) (listeners w)) + n.
Proof.
  intros Hrs Hready Hwired. induction n as [|n IH]; simpl.
  - rewrite Nat.add_0_r. repeat split; assumption.
  - destruct IH as (IHw & IHr & IHn).
    set (x := Nat.iter n (init host) w) in *.
    rewrite (init_ready host x Hrs).
    set (y := emit (console_log [AText "Initializing Whale Image Manager"]) x).
    assert (Hy : shape y = shape x) by reflexivity.
    assert (Hry : load_ready y = true).
    { rewrite (load_ready_shape x); [exact IHr|exact Hy]. }
    rewrite setupImageDropdown_listeners.
    split; [|split].
    + unfold wired. rewrite setupImageDropdown_listeners.
      apply Forall_app. split; [exact IHw|].
      unfold wiring.
      destruct (present (load_images_dropdown (dom y))),
        (present (refresh_images_list (dom y))),
        (present (available_images (dom y))); simpl;
        repeat (apply Forall_cons || apply Forall_nil);
        unfold script_listener; auto.
    + rewrite (load_ready_shape y); [exact Hry|].
      apply shape_setupImageDropdown.
    + rewrite filter_app, length_app. simpl listeners. rewrite IHn.
      rewrite <- Nat.add_assoc. f_equal.
      unfold wiring. unfold load_ready in Hry.
      destruct (available_images (dom y)), (load_images_dropdown (dom y)),
        (refresh_images_list (dom y)); try discriminate Hry; simpl;
        apply Nat.add_1_r.
Qed.

(** X17.  [init] has no guard against running again: after n runs on a ready
    document, starting from a page without listeners, one click on the
    trigger button sends n list requests. *)
Theorem repeated_init_multiplies_requests
    (host : Host) (n : nat) (v : string) (w : World) :
  readyState host <> loading ->
  listeners w = [] ->
  load_ready w = true ->
  let w' := Nat.iter n (init host) w in
  let clicked := dispatchEvent host TLoadButton click v w' in
  requests (log clicked) =
    (requests (log w') ++ repeat (list_request host) n)%list /\
  pending clicked = (pending w' ++ repeat PLoad n)%list.
Proof.
  intros Hrs Hnil Hready w' clicked. subst clicked w'.
  assert (Hwired : wired w) by (unfold wired; rewrite Hnil; constructor).
  destruct (init_n_times host n w Hrs Hready Hwired) as (Hw & Hr & Hn).
  rewrite Hnil in Hn. simpl in Hn.
  destruct (clicks_fold host v _ Hw _ Hr) as (Hreq & Hpend & _).
  simpl in Hreq, Hpend. rewrite Hn in Hreq, Hpend.
  unfold dispatchEvent. split; assumption.
Qed.

Lemma repeated_init_multiplies_requests_witness :
  let w' := init browser_host (init browser_host example_world) in
  let clicked := dispatchEvent browser_host TLoadButton click EmptyString w' in
  requests (log clicked) =
    (requests (log w') ++ [list_request browser_host;
                           list_request browser_host])%list /\
  pending clicked = (pending w' ++ [PLoad; PLoad])%list.
Proof.
  apply (repeated_init_multiplies_requests browser_host 2 EmptyString
           example_world).
  - discriminate.
  - reflexivity.
  - reflexivity.
Defined.

(** ** Alerts per outcome *)

(** X3.  Settling a chain shows at most one alert, and on a host that can
    alert it shows exactly one for every outcome but one: a list
    response with [success] true, with or without images, is the only
    outcome that passes in silence. *)
Theorem one_alert_per_outcome_but_list_success
    (host : Host) (k : Pending) (o : Outcome) (w : World) :
  exists a,
    is_alert a = true /\
    alerts (log (settle host k o w)) =
      (alerts (log w) ++
       if alert_available host && negb (quiet k o) then [a] else [])%list.
Proof.
  destruct k as [|label]; unfold settle, promise_chain, quiet, run; cbn [fold_left].
  - unfold loadAvailableImages_then, loadAvailableImages_catch.
    destruct o as [r|e]; [destruct (has_images r) eqn:Hh|].
    + exists (alert_call EmptyString). split; [reflexivity|].
      unfold has_images in Hh. apply andb_prop in Hh. destruct Hh as [Hs _].
      rewrite Hs, andb_false_r. crush_log w host.
    + exists (alert_shown host "Error"
                (Some (or_default (message r) no_images_default))).
      split; [unfold alert_shown; destruct (ezAlert_available host);
              reflexivity|].
      destruct (success r); crush_log w host.
    + exists (alert_shown host "Error"
                (Some ("Failed to load images: " ++ error_message e))).
      split; [unfold alert_shown; destruct (ezAlert_available host);
              reflexivity|].
      crush_log w host.
  - unfold refreshImagesList_then, refreshImagesList_catch.
    destruct o as [r|e]; [destruct (success r)|].
    + exists (alert_shown host "Success" (message r)).
      split; [unfold alert_shown; destruct (ezAlert_available host);
              reflexivity|].
      crush_log w host.
    + exists (alert_shown host "Error"
                (Some (or_default (message r) refresh_default))).
      split; [unfold alert_shown; destruct (ezAlert_available host);
              reflexivity|].
      crush_log w host.
    + exists (alert_shown host "Error"
                (Some ("Failed to refresh images: " ++ error_message e))).
      split; [unfold alert_shown; destruct (ezAlert_available host);
              reflexivity|].
      crush_log w host.
Qed.
